(** * Dagster: dependency-structure snapshots and SQL schedule storage

    A shallow embedding of

    - [dagster/core/snap/dep_snapshot.py]: the dependency structure
      snapshot records, their builder and the name-keyed index;
    - [dagster/core/storage/schedules/sql_schedule_storage.py]: the
      SQL-backed schedule storage.

    Python exceptions are values of [exn]; a call that may raise returns
    a [result].  Dictionaries queried by key are [gmap]s, dictionaries
    iterated with [.items()] are association lists in iteration order,
    and the two SQL tables are lists of rows. *)

From stdpp Require Import base option list strings gmap.
From Stdlib Require Import Ascii ZArith.

Open Scope Z_scope.
Open Scope string_scope.
Open Scope list_scope.

(** ** Exceptions and results *)

(** The exception classes the embedded code can raise.  [KeyError],
    [IndexError] and [UnboundLocalError] are Python's own;
    [IntegrityError] is [sqlalchemy.exc.IntegrityError]; [CheckError] is
    what [dagster.check] raises; [DagsterInvariantViolationError] comes
    from [dagster.core.errors]. *)
Inductive exn_class : Set :=
  | KeyError
  | IndexError
  | UnboundLocalError
  | IntegrityError
  | CheckError
  | DagsterInvariantViolationError.

#[global] Instance exn_class_eq_dec : EqDecision exn_class.
Proof. solve_decision. Defined.

(** An exception instance: its class, its message, and the class of the
    exception it was raised from ([__cause__], set by [six.raise_from]). *)
Record exn : Set := mk_exn {
  exn_type : exn_class;
  exn_msg : string;
  exn_cause : option exn_class
}.

Inductive result (A : Type) : Type :=
  | Ok (a : A)
  | Raise (e : exn).

Arguments Ok {A} a.
Arguments Raise {A} e.

Definition result_bind {A B : Type} (r : result A) (k : A -> result B) : result B :=
  match r with
  | Ok a => k a
  | Raise e => Raise e
  end.

Notation "x <-! r ; k" := (result_bind r (fun x => k))
  (at level 100, r at next level, right associativity).

Definition is_ok {A : Type} (r : result A) : bool :=
  match r with Ok _ => true | Raise _ => false end.

(** The class of the exception a call raised, if it raised. *)
Definition raised_class {A : Type} (r : result A) : option exn_class :=
  match r with Ok _ => None | Raise e => Some (exn_type e) end.

(** ** [dagster.check] *)

(** Modelled from the spec: the module [dagster.check] is not part of the
    sources at hand.  The spec calls the failure of [check.failed] and of
    [check.invariant] an invariant-violation error; both are raised as
    [CheckError].  [check.failed] carries the description it is given,
    [check.invariant] is called without one.  The parameter checks
    ([check.str_param], [check.inst_param], [check.list_param],
    [check.dict_param], [check.opt_inst_param]) test the dynamic type of
    an argument; here the types of the embedding enforce them. *)
Definition check_failed {A : Type} (desc : string) : result A :=
  Raise (mk_exn CheckError desc None).

Definition check_invariant (condition : bool) : result unit :=
  if condition then Ok tt else Raise (mk_exn CheckError "" None).

(** ** The snapshot records ([dep_snapshot.py]) *)

Module Snap.

(** [OutputHandleSnap(solid_name, output_name)] *)
Record OutputHandleSnap : Set := mkOutputHandleSnap {
  oh_solid_name : string;
  output_name : string
}.

(** [InputDependencySnap(input_name, prev_output_snaps)] *)
Record InputDependencySnap : Set := mkInputDependencySnap {
  input_name : string;
  prev_output_snaps : list OutputHandleSnap
}.

(** [SolidInvocationSnap(solid_name, solid_def_name, tags, input_dep_snaps)] *)
Record SolidInvocationSnap : Type := mkSolidInvocationSnap {
  solid_name : string;
  solid_def_name : string;
  tags : gmap string string;
  input_dep_snaps : list InputDependencySnap
}.

(** [DependencyStructureSnapshot(solid_invocation_snaps)] *)
Record DependencyStructureSnapshot : Type := mkDependencyStructureSnapshot {
  solid_invocation_snaps : list SolidInvocationSnap
}.

(** *** The live graph *)

(** Modelled from the spec: the classes of [dagster.core.definitions]
    ([Solid], [SolidInputHandle], [SolidOutputHandle],
    [DependencyStructure], [IContainSolids]) are not part of the sources
    at hand.  Only the attributes the builder reads are kept, plus a
    [description] on each definition to stand for everything the builder
    does not read.  The dictionary returned by
    [input_to_upstream_outputs_for_solid] is consumed through [.items()]
    only, so it is the list of its items in iteration order. *)
Record SolidDefinition : Set := mkSolidDefinition {
  def_name : string;
  def_description : option string
}.

Record InputDefinition : Set := mkInputDefinition {
  input_def_name : string;
  input_def_description : option string
}.

Record OutputDefinition : Set := mkOutputDefinition {
  output_def_name : string;
  output_def_description : option string
}.

Record Solid : Type := mkSolid {
  name : string;
  definition : SolidDefinition;
  solid_tags : gmap string string
}.

Record SolidInputHandle : Type := mkSolidInputHandle {
  ih_solid : Solid;
  input_def : InputDefinition
}.

Record SolidOutputHandle : Type := mkSolidOutputHandle {
  oh_solid : Solid;
  output_def : OutputDefinition
}.

Record DependencyStructure : Type := mkDependencyStructure {
  input_to_upstream_outputs_for_solid :
    string -> list (SolidInputHandle * list SolidOutputHandle)
}.

Record IContainSolids : Type := mkIContainSolids {
  solids : list Solid;
  dependency_structure : DependencyStructure
}.

(** *** The builder *)

Definition _upstream_outputs (icontains_solids : IContainSolids) (solid : Solid)
  : list (SolidInputHandle * list SolidOutputHandle) :=
  input_to_upstream_outputs_for_solid
    (dependency_structure icontains_solids) (name solid).

(** The three nested comprehensions of the builder, innermost first. *)
Definition output_handle_snap (oh : SolidOutputHandle) : OutputHandleSnap :=
  mkOutputHandleSnap (name (oh_solid oh)) (output_def_name (output_def oh)).

Definition input_dependency_snap
  (item : SolidInputHandle * list SolidOutputHandle) : InputDependencySnap :=
  let '(input_handle, output_handles) := item in
  mkInputDependencySnap
    (input_def_name (input_def input_handle))
    (map output_handle_snap output_handles).

Definition solid_invocation_snap (icontains_solids : IContainSolids)
  (solid : Solid) : SolidInvocationSnap :=
  mkSolidInvocationSnap
    (name solid)
    (def_name (definition solid))
    (solid_tags solid)
    (map input_dependency_snap (_upstream_outputs icontains_solids solid)).

Definition build_dep_structure_snapshot_from_icontains_solids
  (icontains_solids : IContainSolids) : DependencyStructureSnapshot :=
  mkDependencyStructureSnapshot
    (map (solid_invocation_snap icontains_solids) (solids icontains_solids)).

(** *** The index *)

Record DependencyStructureSnapshotIndex : Type := mkIndex {
  _invocations_dict : gmap string SolidInvocationSnap
}.

(** The dict comprehension [{si.solid_name: si for si in ...}] stores
    the items one after the other; a key met again is overwritten. *)
Definition dict_of_invocations (l : list SolidInvocationSnap)
  : gmap string SolidInvocationSnap :=
  foldl (fun d si => <[solid_name si := si]> d) ∅ l.

(** [DependencyStructureSnapshotIndex.__init__] *)
Definition DependencyStructureSnapshotIndex_init
  (dep_structure_snapshot : DependencyStructureSnapshot)
  : result DependencyStructureSnapshotIndex :=
  Ok (mkIndex (dict_of_invocations (solid_invocation_snaps dep_structure_snapshot))).

Definition get_invocation (self : DependencyStructureSnapshotIndex)
  (solid_name : string) : result SolidInvocationSnap :=
  match _invocations_dict self !! solid_name with
  | Some si => Ok si
  | None => Raise (mk_exn KeyError solid_name None)
  end.

(** The [for] loop of [get_upstream_outputs]: the first dependency whose
    name matches ends the scan; [None] when the loop runs to its end. *)
Fixpoint scan_input_deps (input_name0 : string)
  (deps : list InputDependencySnap) : option (list OutputHandleSnap) :=
  match deps with
  | [] => None
  | input_dep :: rest =>
      if decide (input_name input_dep = input_name0)
      then Some (prev_output_snaps input_dep)
      else scan_input_deps input_name0 rest
  end.

Definition get_upstream_outputs (self : DependencyStructureSnapshotIndex)
  (solid_name input_name0 : string) : result (list OutputHandleSnap) :=
  invocation <-! get_invocation self solid_name;
  match scan_input_deps input_name0 (input_dep_snaps invocation) with
  | Some outputs => Ok outputs
  | None =>
      check_failed
        ("Input " ++ input_name0 ++ " not found for solid " ++ solid_name)
  end.

(** [outputs[0]] *)
Definition item0 {A : Type} (l : list A) : result A :=
  match l with
  | x :: _ => Ok x
  | [] => Raise (mk_exn IndexError "list index out of range" None)
  end.

Definition get_upstream_output (self : DependencyStructureSnapshotIndex)
  (solid_name input_name0 : string) : result OutputHandleSnap :=
  outputs <-! get_upstream_outputs self solid_name input_name0;
  _ <-! check_invariant (bool_decide (length outputs = 1%nat));
  item0 outputs.

End Snap.

(** ** The schedule storage ([sql_schedule_storage.py]) *)

Module Storage.

(** *** Scheduler values *)

(** Modelled from the spec: [RepositoryDefinition], [Schedule],
    [ScheduleTick] and [ScheduleTickData] live in
    [dagster.core.definitions] and [dagster.core.scheduler], which are
    not part of the sources at hand.  A Schedule has a name and a status
    in RUNNING, STOPPED; a tick's data has a schedule name, a status in
    STARTED, SKIPPED, SUCCESS, FAILURE and a timestamp; a [ScheduleTick]
    pairs a storage-assigned id with tick data and answers [status] with
    the status of its data.  One more field on each record stands for
    whatever else the encoded body carries. *)
Record RepositoryDefinition : Set := mkRepositoryDefinition {
  repo_name : string
}.

Inductive ScheduleStatus : Set := RUNNING | STOPPED.

Definition ScheduleStatus_value (s : ScheduleStatus) : string :=
  match s with RUNNING => "RUNNING" | STOPPED => "STOPPED" end.

Inductive ScheduleTickStatus : Set := STARTED | SKIPPED | SUCCESS | FAILURE.

Definition ScheduleTickStatus_value (s : ScheduleTickStatus) : string :=
  match s with
  | STARTED => "STARTED"
  | SKIPPED => "SKIPPED"
  | SUCCESS => "SUCCESS"
  | FAILURE => "FAILURE"
  end.

Record Schedule : Set := mkSchedule {
  name : string;
  status : ScheduleStatus;
  schedule_definition_data : string
}.

Record ScheduleTickData : Set := mkScheduleTickData {
  tick_data_schedule_name : string;
  tick_data_status : ScheduleTickStatus;
  tick_data_timestamp : Z;
  tick_data_rest : string
}.

Record ScheduleTick : Set := mkScheduleTick {
  tick_id : Z;
  schedule_tick_data : ScheduleTickData
}.

Definition tick_status (tick : ScheduleTick) : ScheduleTickStatus :=
  tick_data_status (schedule_tick_data tick).

(** The values the serdes layer encodes and decodes. *)
Inductive DagsterNamedTuple : Set :=
  | NT_Schedule (s : Schedule)
  | NT_ScheduleTickData (d : ScheduleTickData).

(** Modelled from the spec: [ScheduleTick(tick_id, data)] on a decoded
    value.  A tick carries tick data; a value of another shape is a
    precondition violation, surfaced at once. *)
Definition ScheduleTick_new (id : Z) (data : DagsterNamedTuple) : result ScheduleTick :=
  match data with
  | NT_ScheduleTickData d => Ok (mkScheduleTick id d)
  | NT_Schedule _ => Raise (mk_exn CheckError "schedule_tick_data" None)
  end.

(** Python truthiness of the values the storage tests with [if] and
    [not]: [None] is false; a [RepositoryDefinition] instance and a
    decoded named tuple (a non-empty tuple) are true.  An optional
    argument is [None] for the Python [None] and [Some r] for an
    instance, so [if repository:] is a match on the option. *)
Definition truthy {A : Type} (o : option A) : bool :=
  match o with Some _ => true | None => false end.

(** Modelled from the spec: the encode/decode capability of
    [dagster.core.serdes], consumed as an interface. *)
Class Serdes : Type := mkSerdes {
  serialize_dagster_namedtuple : DagsterNamedTuple -> string;
  deserialize_json_to_dagster_namedtuple : string -> DagsterNamedTuple
}.

(** Modelled from the spec: [dagster.utils.utc_datetime_from_timestamp]
    turns a POSIX timestamp into a datetime; the datetime is kept as the
    timestamp it denotes. *)
Definition utc_datetime_from_timestamp (t : Z) : Z := t.

(** *** The relational store *)

(** Modelled from the spec: the table declarations of [.schema] are not
    part of the sources at hand.  The Schedule table has the columns
    repository_name, schedule_name, status, schedule_body and is unique
    on (repository_name, schedule_name); the Schedule Tick table has an
    auto-assigned integer primary key id and the columns
    repository_name, schedule_name, status, timestamp, tick_body. *)
Record ScheduleRow : Set := mkScheduleRow {
  repository_name : string;
  schedule_name : string;
  schedule_status : string;
  schedule_body : string
}.

Record ScheduleTickRow : Set := mkScheduleTickRow {
  id : Z;
  tick_repository_name : string;
  tick_schedule_name : string;
  tick_row_status : string;
  timestamp : Z;
  tick_body : string
}.

Record Store : Set := mkStore {
  ScheduleTable : list ScheduleRow;
  ScheduleTickTable : list ScheduleTickRow;
  (* the next primary key the tick table hands out *)
  tick_id_seq : Z
}.

(** [where] clauses on the columns the storage compares. *)
Inductive ScheduleTable_clause : Set :=
  | c_repository_name_eq (v : string)
  | c_schedule_name_eq (v : string).

Inductive ScheduleTickTable_clause : Set :=
  | c_id_eq (v : Z)
  | c_tick_repository_name_eq (v : string)
  | c_tick_schedule_name_eq (v : string).

Definition schedule_clause_holds (r : ScheduleRow) (c : ScheduleTable_clause) : bool :=
  match c with
  | c_repository_name_eq v => bool_decide (repository_name r = v)
  | c_schedule_name_eq v => bool_decide (schedule_name r = v)
  end.

Definition tick_clause_holds (r : ScheduleTickRow) (c : ScheduleTickTable_clause) : bool :=
  match c with
  | c_id_eq v => bool_decide (id r = v)
  | c_tick_repository_name_eq v => bool_decide (tick_repository_name r = v)
  | c_tick_schedule_name_eq v => bool_decide (tick_schedule_name r = v)
  end.

(** A row is selected when every chained [.where(...)] holds. *)
Definition schedule_row_matches (cs : list ScheduleTable_clause) (r : ScheduleRow) : bool :=
  forallb (schedule_clause_holds r) cs.

Definition tick_row_matches (cs : list ScheduleTickTable_clause) (r : ScheduleTickRow) : bool :=
  forallb (tick_clause_holds r) cs.

(** The statements the storage builds. *)
Inductive Query : Type :=
  (* db.select([ScheduleTable.c.schedule_body]).select_from(ScheduleTable) *)
  | select_schedule_body (whereclause : list ScheduleTable_clause)
  (* db.select([ScheduleTickTable.c.id, ScheduleTickTable.c.tick_body]) *)
  | select_tick_id_body (whereclause : list ScheduleTickTable_clause)
  | ScheduleTable_insert (values : ScheduleRow)
  | ScheduleTable_update (whereclause : list ScheduleTable_clause)
      (status_value body_value : string)
  | ScheduleTable_delete (whereclause : list ScheduleTable_clause)
  (* the id column is left to the store *)
  | ScheduleTickTable_insert (repository_name_value schedule_name_value
      status_value : string) (timestamp_value : Z) (tick_body_value : string)
  | ScheduleTickTable_update (whereclause : list ScheduleTickTable_clause)
      (status_value body_value : string).

(** [statement.where(clause)]: one more condition on a select, update
    or delete of the Schedule table, resp. of the Schedule Tick table. *)
Definition where_ (q : Query) (c : ScheduleTable_clause) : Query :=
  match q with
  | select_schedule_body cs => select_schedule_body (cs ++ [c])
  | ScheduleTable_update cs sv bv => ScheduleTable_update (cs ++ [c]) sv bv
  | ScheduleTable_delete cs => ScheduleTable_delete (cs ++ [c])
  | _ => q
  end.

Definition tick_where (q : Query) (c : ScheduleTickTable_clause) : Query :=
  match q with
  | select_tick_id_body cs => select_tick_id_body (cs ++ [c])
  | ScheduleTickTable_update cs sv bv => ScheduleTickTable_update (cs ++ [c]) sv bv
  | _ => q
  end.

(** What a statement hands back: the fetched rows of a select (as
    tuples of columns), or the primary key of an inserted tick. *)
Inductive ResultProxy : Set :=
  | rows_body (rows : list string)
  | rows_id_body (rows : list (Z * string))
  | inserted_primary_key (key : Z)
  | no_rows.

Definition key_taken (tbl : list ScheduleRow) (row : ScheduleRow) : bool :=
  existsb (fun r => bool_decide (repository_name r = repository_name row)
                    && bool_decide (schedule_name r = schedule_name row)) tbl.

(** [conn.execute(statement)]: the result, and the store afterwards.
    Modelled from the spec: the SQL engine is outside the sources at
    hand.  An insert into the Schedule table that would repeat a
    (repository_name, schedule_name) raises [IntegrityError]; every
    statement is all-or-nothing, so one that raises leaves the store as
    it was.  The storage asks for no order in its selects, and neither
    the code nor the spec fixes the order in which the engine returns
    the rows of the Schedule table.  The rows are listed here in table
    order, which is one order an engine may choose: what is stated of
    the program about the rows [all_schedules] returns is stated up to
    their order. *)
Definition conn_execute (q : Query) (st : Store) : result ResultProxy * Store :=
  match q with
  | select_schedule_body cs =>
      (Ok (rows_body
             (map schedule_body (List.filter (schedule_row_matches cs) (ScheduleTable st)))),
       st)
  | select_tick_id_body cs =>
      (Ok (rows_id_body
             (map (fun r => (id r, tick_body r))
                  (List.filter (tick_row_matches cs) (ScheduleTickTable st)))),
       st)
  | ScheduleTable_insert row =>
      if key_taken (ScheduleTable st) row
      then (Raise (mk_exn IntegrityError "UNIQUE constraint failed" None), st)
      else (Ok no_rows,
            mkStore (ScheduleTable st ++ [row]) (ScheduleTickTable st) (tick_id_seq st))
  | ScheduleTable_update cs status_value body_value =>
      (Ok no_rows,
       mkStore
         (map (fun r => if schedule_row_matches cs r
                        then mkScheduleRow (repository_name r) (schedule_name r)
                               status_value body_value
                        else r) (ScheduleTable st))
         (ScheduleTickTable st) (tick_id_seq st))
  | ScheduleTable_delete cs =>
      (Ok no_rows,
       mkStore (List.filter (fun r => negb (schedule_row_matches cs r)) (ScheduleTable st))
         (ScheduleTickTable st) (tick_id_seq st))
  | ScheduleTickTable_insert rn sn sv ts body =>
      (Ok (inserted_primary_key (tick_id_seq st)),
       mkStore (ScheduleTable st)
         (ScheduleTickTable st ++ [mkScheduleTickRow (tick_id_seq st) rn sn sv ts body])
         (tick_id_seq st + 1))
  | ScheduleTickTable_update cs status_value body_value =>
      (Ok no_rows,
       mkStore (ScheduleTable st)
         (map (fun r => if tick_row_matches cs r
                        then mkScheduleTickRow (id r) (tick_repository_name r)
                               (tick_schedule_name r) status_value (timestamp r) body_value
                        else r) (ScheduleTickTable st))
         (tick_id_seq st))
  end.

(** *** [SqlScheduleStorage] *)

Section SqlScheduleStorage.

Context `{Serdes}.

(** Reading a local variable: one that no executed statement has bound
    raises [UnboundLocalError]. *)
Definition load_local {A : Type} (var : string) (binding : option A) : result A :=
  match binding with
  | Some v => Ok v
  | None =>
      Raise (mk_exn UnboundLocalError
               ("local variable '" ++ var ++ "' referenced before assignment") None)
  end.

(** [execute]: run the query, fetch all rows. *)
Definition execute (query : Query) (st : Store) : result ResultProxy :=
  fst (conn_execute query st).

(** [_deserialize_rows]: decode column 0 of every row. *)
Definition _deserialize_rows (rows : list string) : list DagsterNamedTuple :=
  map deserialize_json_to_dagster_namedtuple rows.

Definition fetched_bodies (res : ResultProxy) : list string :=
  match res with rows_body rows => rows | _ => [] end.

Definition fetched_id_bodies (res : ResultProxy) : list (Z * string) :=
  match res with rows_id_body rows => rows | _ => [] end.

Definition all_schedules (repository : option RepositoryDefinition) (st : Store)
  : result (list DagsterNamedTuple) :=
  let base_query := select_schedule_body [] in
  (* [query] is assigned in the body of [if repository:] and nowhere else *)
  let query : option Query :=
    match repository with
    | Some r => Some (where_ base_query (c_repository_name_eq (repo_name r)))
    | None => None
    end in
  q <-! load_local "query" query;
  res <-! execute q st;
  Ok (_deserialize_rows (fetched_bodies res)).

Definition get_schedule_by_name (repository : RepositoryDefinition)
  (schedule_name0 : string) (st : Store) : result (option DagsterNamedTuple) :=
  let query :=
    where_
      (where_ (select_schedule_body [])
         (c_repository_name_eq (repo_name repository)))
      (c_schedule_name_eq schedule_name0) in
  res <-! execute query st;
  match fetched_bodies res with
  | row0 :: _ => Ok (Some (deserialize_json_to_dagster_namedtuple row0))
  | [] => Ok None
  end.

(** [list(map(lambda r: ScheduleTick(r[0], deserialize(r[1])), rows))]:
    the first constructor call that raises ends the map. *)
Fixpoint ticks_of_rows (rows : list (Z * string)) : result (list ScheduleTick) :=
  match rows with
  | [] => Ok []
  | r :: rest =>
      t <-! ScheduleTick_new (fst r) (deserialize_json_to_dagster_namedtuple (snd r));
      ts <-! ticks_of_rows rest;
      Ok (t :: ts)
  end.

Definition get_schedule_ticks_by_schedule (repository : RepositoryDefinition)
  (schedule_name0 : string) (st : Store) : result (list ScheduleTick) :=
  let query :=
    tick_where
      (tick_where (select_tick_id_body [])
         (c_tick_repository_name_eq (repo_name repository)))
      (c_tick_schedule_name_eq schedule_name0) in
  res <-! execute query st;
  ticks_of_rows (fetched_id_bodies res).

(** [except db.exc.IntegrityError as exc: six.raise_from(new, exc)]:
    an [IntegrityError] is replaced by [new] with the caught exception
    as its cause; any other exception passes through. *)
Definition translate_integrity_error {A : Type} (msg : string) (r : result A) : result A :=
  match r with
  | Ok a => Ok a
  | Raise exc =>
      if decide (exn_type exc = IntegrityError)
      then Raise (mk_exn DagsterInvariantViolationError msg (Some (exn_type exc)))
      else Raise exc
  end.

Definition create_schedule_tick (repository : RepositoryDefinition)
  (schedule_tick_data0 : ScheduleTickData) (st : Store) : result ScheduleTick * Store :=
  let tick_insert :=
    ScheduleTickTable_insert
      (repo_name repository)
      (tick_data_schedule_name schedule_tick_data0)
      (ScheduleTickStatus_value (tick_data_status schedule_tick_data0))
      (utc_datetime_from_timestamp (tick_data_timestamp schedule_tick_data0))
      (serialize_dagster_namedtuple (NT_ScheduleTickData schedule_tick_data0)) in
  let '(res, st') := conn_execute tick_insert st in
  (translate_integrity_error
     ("Unable to insert ScheduleTick for schedule "
        ++ tick_data_schedule_name schedule_tick_data0 ++ " in storage")
     (r <-! res;
      match r with
      | inserted_primary_key k => Ok (mkScheduleTick k schedule_tick_data0)
      | _ => Raise (mk_exn IndexError "inserted_primary_key" None)
      end),
   st').

Definition update_schedule_tick (repository : RepositoryDefinition)
  (tick : ScheduleTick) (st : Store) : result ScheduleTick * Store :=
  let '(res, st') :=
    conn_execute
      (tick_where
         (ScheduleTickTable_update []
            (ScheduleTickStatus_value (tick_status tick))
            (serialize_dagster_namedtuple
               (NT_ScheduleTickData (schedule_tick_data tick))))
         (c_id_eq (tick_id tick)))
      st in
  (_ <-! res; Ok tick, st').

Definition add_schedule (repository : RepositoryDefinition) (schedule : Schedule)
  (st : Store) : result Schedule * Store :=
  let schedule_insert :=
    ScheduleTable_insert
      (mkScheduleRow
         (repo_name repository)
         (name schedule)
         (ScheduleStatus_value (status schedule))
         (serialize_dagster_namedtuple (NT_Schedule schedule))) in
  let '(res, st') := conn_execute schedule_insert st in
  (_ <-! translate_integrity_error
           ("Schedule " ++ name schedule ++ " for repository " ++ repo_name repository
              ++ " is already present in storage")
           res;
   Ok schedule,
   st').

Definition not_present_error (repository : RepositoryDefinition) (schedule : Schedule) : exn :=
  mk_exn DagsterInvariantViolationError
    ("Schedule " ++ name schedule ++ " for repository " ++ repo_name repository
       ++ " is not present in storage")
    None.

Definition update_schedule (repository : RepositoryDefinition) (schedule : Schedule)
  (st : Store) : result unit * Store :=
  match get_schedule_by_name repository (name schedule) st with
  | Raise e => (Raise e, st)
  | Ok found =>
      if negb (truthy found)
      then (Raise (not_present_error repository schedule), st)
      else
        let '(res, st') :=
          conn_execute
            (where_
               (where_
                  (ScheduleTable_update []
                     (ScheduleStatus_value (status schedule))
                     (serialize_dagster_namedtuple (NT_Schedule schedule)))
                  (c_repository_name_eq (repo_name repository)))
               (c_schedule_name_eq (name schedule)))
            st in
        (_ <-! res; Ok tt, st')
  end.

Definition delete_schedule (repository : RepositoryDefinition) (schedule : Schedule)
  (st : Store) : result unit * Store :=
  match get_schedule_by_name repository (name schedule) st with
  | Raise e => (Raise e, st)
  | Ok found =>
      if negb (truthy found)
      then (Raise (not_present_error repository schedule), st)
      else
        let '(res, st') :=
          conn_execute
            (where_
               (where_ (ScheduleTable_delete [])
                  (c_repository_name_eq (repo_name repository)))
               (c_schedule_name_eq (name schedule)))
            st in
        (_ <-! res; Ok tt, st')
  end.

(** Clears the schedule storage. *)
Definition wipe (st : Store) : result unit * Store :=
  let '(res, st') := conn_execute (ScheduleTable_delete []) st in
  (_ <-! res; Ok tt, st').

End SqlScheduleStorage.

(** A small codec to run the storage on: a Schedule is written as [S],
    a letter for its status, and its name; tick data as [T], a letter
    for its status, and its schedule name. *)
Definition toy_serialize (v : DagsterNamedTuple) : string :=
  match v with
  | NT_Schedule s =>
      "S" ++ (match status s with RUNNING => "R" | STOPPED => "S" end) ++ name s
  | NT_ScheduleTickData d =>
      "T" ++ (match tick_data_status d with
              | STARTED => "B" | SKIPPED => "K" | SUCCESS => "S" | FAILURE => "F"
              end) ++ tick_data_schedule_name d
  end.

Definition toy_deserialize (s : string) : DagsterNamedTuple :=
  match s with
  | String "T"%char (String c rest) =>
      NT_ScheduleTickData
        (mkScheduleTickData rest
           (if Ascii.eqb c "K"%char then SKIPPED
            else if Ascii.eqb c "S"%char then SUCCESS
            else if Ascii.eqb c "F"%char then FAILURE else STARTED)
           0 "")
  | String _ (String c rest) =>
      NT_Schedule (mkSchedule rest (if Ascii.eqb c "S"%char then STOPPED else RUNNING) "")
  | _ => NT_Schedule (mkSchedule "" RUNNING "")
  end.

Definition toy_serdes : Serdes := mkSerdes toy_serialize toy_deserialize.

End Storage.

(** ** What the index records *)

Module SnapSpec.
Import Snap.

(** [d] is the first Input Dependency named [i] in [deps]: the one the
    scan of [get_upstream_outputs] stops at. *)
Definition first_input_dep (i : string) (deps : list InputDependencySnap)
  (d : InputDependencySnap) : Prop :=
  ∃ pre post, deps = pre ++ d :: post
              ∧ input_name d = i
              ∧ Forall (fun d' => input_name d' ≠ i) pre.

(** The index records the producer list [outs] for input [i] of node
    [sn]: the node is in the index, and its Input Dependency for [i]
    carries [outs]. *)
Definition recorded (self : DependencyStructureSnapshotIndex) (sn i : string)
  (outs : list OutputHandleSnap) : Prop :=
  ∃ inv d, _invocations_dict self !! sn = Some inv
           ∧ first_input_dep i (input_dep_snaps inv) d
           ∧ prev_output_snaps d = outs.

(** What the builder reads of a live graph: per solid, in iteration
    order, its name, the name of its definition, its tags, and per item
    of its upstream mapping the input's name and the producers as
    (solid name, output name). *)
Definition wiring_of_item (item : SolidInputHandle * list SolidOutputHandle)
  : string * list (string * string) :=
  (input_def_name (input_def (fst item)),
   map (fun oh => (name (oh_solid oh), output_def_name (output_def oh))) (snd item)).

Definition wiring (g : IContainSolids)
  : list (string * string * gmap string string * list (string * list (string * string))) :=
  map (fun s => (name s, def_name (definition s), solid_tags s,
                 map wiring_of_item (_upstream_outputs g s)))
      (solids g).

End SnapSpec.

(** ** Sample data *)

Module Samples.
Import Snap.

(** A snapshot in which two invocations are named [a]. *)
Definition inv_a_first : SolidInvocationSnap :=
  mkSolidInvocationSnap "a" "emit_v1" ∅ [].

Definition inv_a_last : SolidInvocationSnap :=
  mkSolidInvocationSnap "a" "emit_v2" ∅ [].

Definition dep_x : InputDependencySnap :=
  mkInputDependencySnap "x" [mkOutputHandleSnap "a" "result"].

Definition dep_y : InputDependencySnap :=
  mkInputDependencySnap "y"
    [mkOutputHandleSnap "a" "result"; mkOutputHandleSnap "c" "result"].

Definition dep_z : InputDependencySnap := mkInputDependencySnap "z" [].

Definition inv_b : SolidInvocationSnap :=
  mkSolidInvocationSnap "b" "join" ∅ [dep_x; dep_y; dep_z].

Definition snapshot_dup : DependencyStructureSnapshot :=
  mkDependencyStructureSnapshot [inv_a_first; inv_a_last; inv_b].

Definition index_dup : DependencyStructureSnapshotIndex :=
  mkIndex (dict_of_invocations (solid_invocation_snaps snapshot_dup)).

Definition empty_index : DependencyStructureSnapshotIndex :=
  mkIndex (dict_of_invocations []).

(** Two live graphs with the same wiring: solid [b] takes [x] from [a]
    and [y] from [a] and [c].  They differ in the descriptions of their
    definitions, which the builder does not read. *)
Definition live_solid (descr : option string) (n d : string) : Solid :=
  mkSolid n (mkSolidDefinition d descr) ∅.

Definition live_structure (descr : option string) : DependencyStructure :=
  let a := live_solid descr "a" "emit" in
  let b := live_solid descr "b" "join" in
  let c := live_solid descr "c" "emit" in
  let result := mkOutputDefinition "result" descr in
  mkDependencyStructure (fun n =>
    if decide (n = "b")
    then [(mkSolidInputHandle b (mkInputDefinition "x" descr),
           [mkSolidOutputHandle a result]);
          (mkSolidInputHandle b (mkInputDefinition "y" descr),
           [mkSolidOutputHandle a result; mkSolidOutputHandle c result])]
    else []).

Definition live_graph (descr : option string) : IContainSolids :=
  mkIContainSolids
    [live_solid descr "a" "emit"; live_solid descr "b" "join";
     live_solid descr "c" "emit"]
    (live_structure descr).

(** A live graph whose mapping for [b] lists the input [x] with no
    producer. *)
Definition graph_empty_port : IContainSolids :=
  let b := live_solid None "b" "join" in
  mkIContainSolids [b]
    (mkDependencyStructure (fun n =>
       if decide (n = "b")
       then [(mkSolidInputHandle b (mkInputDefinition "x" None), [])]
       else [])).

Import Storage.

Definition repo : RepositoryDefinition := mkRepositoryDefinition "repo".

Definition daily : Schedule := mkSchedule "daily" RUNNING "".
Definition weekly : Schedule := mkSchedule "weekly" STOPPED "".

Definition daily_started : ScheduleTickData :=
  mkScheduleTickData "daily" STARTED 0 "".

(** A store with the schedule [daily] of [repo], the schedule [daily]
    of another repository, and two ticks of the former. *)
Definition store1 : Store :=
  mkStore
    [mkScheduleRow "repo" "daily" "RUNNING" (toy_serialize (NT_Schedule daily));
     mkScheduleRow "other" "daily" "STOPPED"
       (toy_serialize (NT_Schedule (mkSchedule "daily" STOPPED "")))]
    [mkScheduleTickRow 1 "repo" "daily" "STARTED" 0
       (toy_serialize (NT_ScheduleTickData daily_started));
     mkScheduleTickRow 2 "repo" "daily" "STARTED" 60
       (toy_serialize (NT_ScheduleTickData daily_started))]
    3.

End Samples.

(** ** What the store holds *)

Module StorageSpec.
Import Storage.

(** The pair of columns the Schedule table is unique on. *)
Definition schedule_key (r : ScheduleRow) : string * string :=
  (repository_name r, schedule_name r).

(** The row belongs to schedule [sn] of repository [rn]. *)
Definition row_has_key (rn sn : string) (r : ScheduleRow) : bool :=
  bool_decide (repository_name r = rn) && bool_decide (schedule_name r = sn).

(** No two rows of the Schedule table carry the same key. *)
Definition unique_keys (st : Store) : Prop :=
  NoDup (map schedule_key (ScheduleTable st)).


(** Every id of the Schedule Tick table was handed out before the next
    one the store will assign. *)
Definition tick_ids_below_seq (st : Store) : Prop :=
  Forall (fun r => id r < tick_id_seq st) (ScheduleTickTable st).

(** [row] is the first row of [tbl] with the key ([rn], [sn]). *)
Definition first_row_with_key (rn sn : string) (tbl : list ScheduleRow)
  (row : ScheduleRow) : Prop :=
  ∃ pre post, tbl = pre ++ row :: post
              ∧ row_has_key rn sn row = true
              ∧ Forall (fun r => row_has_key rn sn r = false) pre.

(** What [update_schedule] does to a row: the status and the body of a
    row with the key are replaced, the key columns are kept. *)
Definition rewrite_schedule_row (rn sn status_value body_value : string)
  (r : ScheduleRow) : ScheduleRow :=
  if row_has_key rn sn r
  then mkScheduleRow (repository_name r) (schedule_name r) status_value body_value
  else r.

(** The row [add_schedule] inserts, and the row [create_schedule_tick]
    inserts under the id [k]. *)
Definition schedule_row `{Serdes} (repository : RepositoryDefinition)
  (schedule : Schedule) : ScheduleRow :=
  mkScheduleRow (repo_name repository) (name schedule)
    (ScheduleStatus_value (status schedule))
    (serialize_dagster_namedtuple (NT_Schedule schedule)).

Definition tick_row `{Serdes} (k : Z) (repository : RepositoryDefinition)
  (d : ScheduleTickData) : ScheduleTickRow :=
  mkScheduleTickRow k (repo_name repository) (tick_data_schedule_name d)
    (ScheduleTickStatus_value (tick_data_status d))
    (utc_datetime_from_timestamp (tick_data_timestamp d))
    (serialize_dagster_namedtuple (NT_ScheduleTickData d)).

End StorageSpec.

(** ** Node definition snapshots ([solid.py]) and the pipeline
    snapshot ([pipeline_snapshot.py]) *)

Module SolidSnap.

(** Modelled from the spec: the config field snapshots and their
    builder [snap_from_field] live in [.config_types], which is not part
    of the sources at hand; they are consumed as an interface. *)
Class ConfigTypes : Type := mkConfigTypes {
  Field : Type;
  ConfigFieldSnap : Type;
  snap_from_field : string -> Field -> ConfigFieldSnap
}.

(** [InputDefSnap(name, dagster_type_key, description)] *)
Record InputDefSnap : Set := mkInputDefSnap {
  ids_name : string;
  ids_dagster_type_key : string;
  ids_description : option string
}.

(** [OutputDefSnap(name, dagster_type_key, description, is_required)] *)
Record OutputDefSnap : Set := mkOutputDefSnap {
  ods_name : string;
  ods_dagster_type_key : string;
  ods_description : option string;
  ods_is_required : bool
}.

(** Modelled from the spec: the definition classes of
    [dagster.core.definitions], with the attributes the snapshot
    builders read.  [dagster_type.key] is kept as the key;
    [required_resource_keys] is a set; a definition is either a
    [SolidDefinition] or a [CompositeSolidDefinition], never both. *)
Record InputDefinition : Set := mkInputDefinition {
  in_name : string;
  in_dagster_type_key : string;
  in_description : option string
}.

Record OutputDefinition : Set := mkOutputDefinition {
  out_name : string;
  out_dagster_type_key : string;
  out_description : option string;
  out_is_required : bool
}.

Definition build_input_def_snap (input_def : InputDefinition) : InputDefSnap :=
  mkInputDefSnap (in_name input_def) (in_dagster_type_key input_def)
    (in_description input_def).

Definition build_output_def_snap (output_def : OutputDefinition) : OutputDefSnap :=
  mkOutputDefSnap (out_name output_def) (out_dagster_type_key output_def)
    (out_description output_def) (out_is_required output_def).

Section WithConfigTypes.

Context `{ConfigTypes}.

Record SolidDefinition : Type := mkSolidDefinition {
  sd_name : string;
  sd_input_defs : list InputDefinition;
  sd_output_defs : list OutputDefinition;
  sd_description : option string;
  sd_tags : gmap string string;
  sd_positional_inputs : list string;
  sd_required_resource_keys : gset string;
  sd_config_field : option Field
}.

Record ConfigMapping : Type := mkConfigMapping {
  config_field : Field
}.

Record CompositeSolidDefinition : Type := mkCompositeSolidDefinition {
  csd_name : string;
  csd_input_defs : list InputDefinition;
  csd_output_defs : list OutputDefinition;
  csd_description : option string;
  csd_tags : gmap string string;
  csd_positional_inputs : list string;
  csd_required_resource_keys : gset string;
  csd_config_mapping : option ConfigMapping;
  (* the composite as a container of solids *)
  csd_contained : Snap.IContainSolids
}.

Inductive ISolidDefinition : Type :=
  | Atomic (solid_def : SolidDefinition)
  | Composite (comp_solid_def : CompositeSolidDefinition).

Record PipelineDefinition : Type := mkPipelineDefinition {
  (* the pipeline as a container of solids *)
  pd_contained : Snap.IContainSolids;
  all_solid_defs : list ISolidDefinition
}.

(** The header shared by both kinds of snapshot
    ([SOLID_DEF_HEADER_PROPS]), and the two kinds. *)
Record SolidDefSnap : Type := mkSolidDefSnap {
  sds_name : string;
  sds_input_def_snaps : list InputDefSnap;
  sds_output_def_snaps : list OutputDefSnap;
  sds_description : option string;
  sds_tags : gmap string string;
  sds_positional_inputs : list string;
  sds_required_resource_keys : list string;
  sds_config_field_snap : option ConfigFieldSnap
}.

Record CompositeSolidDefSnap : Type := mkCompositeSolidDefSnap {
  csds_name : string;
  csds_input_def_snaps : list InputDefSnap;
  csds_output_def_snaps : list OutputDefSnap;
  csds_description : option string;
  csds_tags : gmap string string;
  csds_positional_inputs : list string;
  csds_required_resource_keys : list string;
  csds_config_field_snap : option ConfigFieldSnap;
  csds_dep_structure_snapshot : Snap.DependencyStructureSnapshot
}.

Record SolidDefinitionsSnapshot : Type := mkSolidDefinitionsSnapshot {
  solid_def_snaps : list SolidDefSnap;
  composite_solid_def_snaps : list CompositeSolidDefSnap
}.

(** In both builders [snap_from_field('config', f) if x else None] is a
    match on the optional attribute [x]: an instance is true, [None] is
    false.  [list(required_resource_keys)] lists the elements of the
    set, each once. *)
Definition build_composite_solid_def_snap (comp_solid_def : CompositeSolidDefinition)
  : CompositeSolidDefSnap :=
  mkCompositeSolidDefSnap
    (csd_name comp_solid_def)
    (map build_input_def_snap (csd_input_defs comp_solid_def))
    (map build_output_def_snap (csd_output_defs comp_solid_def))
    (csd_description comp_solid_def)
    (csd_tags comp_solid_def)
    (csd_positional_inputs comp_solid_def)
    (elements (csd_required_resource_keys comp_solid_def))
    (match csd_config_mapping comp_solid_def with
     | Some config_mapping =>
         Some (snap_from_field "config" (config_field config_mapping))
     | None => None
     end)
    (Snap.build_dep_structure_snapshot_from_icontains_solids
       (csd_contained comp_solid_def)).

Definition build_solid_def_snap (solid_def : SolidDefinition) : SolidDefSnap :=
  mkSolidDefSnap
    (sd_name solid_def)
    (map build_input_def_snap (sd_input_defs solid_def))
    (map build_output_def_snap (sd_output_defs solid_def))
    (sd_description solid_def)
    (sd_tags solid_def)
    (sd_positional_inputs solid_def)
    (elements (sd_required_resource_keys solid_def))
    (match sd_config_field solid_def with
     | Some field => Some (snap_from_field "config" field)
     | None => None
     end).

(** The two comprehensions of [build_solid_definitions_snapshot], each
    over [all_solid_defs] with its [isinstance] filter. *)
Definition build_solid_definitions_snapshot (pipeline_def : PipelineDefinition)
  : SolidDefinitionsSnapshot :=
  mkSolidDefinitionsSnapshot
    (omap (fun solid_def =>
             match solid_def with
             | Atomic d => Some (build_solid_def_snap d)
             | Composite _ => None
             end) (all_solid_defs pipeline_def))
    (omap (fun solid_def =>
             match solid_def with
             | Composite d => Some (build_composite_solid_def_snap d)
             | Atomic _ => None
             end) (all_solid_defs pipeline_def)).

(** [SolidDefSnap.get_input_snap] and [SolidDefSnap.get_output_snap]:
    the loop returns the first port of that name; running to its end it
    reaches [check.failed]. *)
Definition get_input_snap (self : SolidDefSnap) (name : string) : result InputDefSnap :=
  match List.find (fun inp => bool_decide (ids_name inp = name))
          (sds_input_def_snaps self) with
  | Some inp => Ok inp
  | None => check_failed ("Could not find input " ++ name)
  end.

Definition get_output_snap (self : SolidDefSnap) (name : string) : result OutputDefSnap :=
  match List.find (fun out => bool_decide (ods_name out = name))
          (sds_output_def_snaps self) with
  | Some out => Ok out
  | None => check_failed ("Could not find output " ++ name)
  end.

(** Modelled from the spec: the config schema snapshot and the type
    namespace snapshot of a pipeline and their builders live in
    [.config_types] and [.dagster_types], which are not part of the
    sources at hand; they are consumed as an interface. *)
Class SchemaBuilders : Type := mkSchemaBuilders {
  ConfigSchemaSnapshot : Type;
  DagsterTypeNamespaceSnapshot : Type;
  build_config_schema_snapshot : PipelineDefinition -> ConfigSchemaSnapshot;
  build_dagster_type_namespace_snapshot :
    PipelineDefinition -> DagsterTypeNamespaceSnapshot
}.

Context `{SchemaBuilders}.

Record PipelineSnapshot : Type := mkPipelineSnapshot {
  config_schema_snapshot : ConfigSchemaSnapshot;
  dagster_type_namespace_snapshot : DagsterTypeNamespaceSnapshot;
  solid_definitions_snapshot : SolidDefinitionsSnapshot;
  dep_structure_snapshot : Snap.DependencyStructureSnapshot
}.

(** [PipelineSnapshot.from_pipeline_def] *)
Definition from_pipeline_def (pipeline_def : PipelineDefinition) : PipelineSnapshot :=
  mkPipelineSnapshot
    (build_config_schema_snapshot pipeline_def)
    (build_dagster_type_namespace_snapshot pipeline_def)
    (build_solid_definitions_snapshot pipeline_def)
    (Snap.build_dep_structure_snapshot_from_icontains_solids
       (pd_contained pipeline_def)).

(** The name of a definition, and of the definition of a solid. *)
Definition isd_name (d : ISolidDefinition) : string :=
  match d with
  | Atomic sd => sd_name sd
  | Composite csd => csd_name csd
  end.

Definition is_composite (d : ISolidDefinition) : bool :=
  match d with Atomic _ => false | Composite _ => true end.

End WithConfigTypes.

(** Config fields for the samples: a field is its text, its snapshot the
    name it is filed under and the text. *)
Definition toy_config_types : ConfigTypes :=
  mkConfigTypes string (string * string) (fun n f => (n, f)).

End SolidSnap.

(** ** More sample data *)

Module MoreSamples.
Import Samples.

(** A snapshot whose invocations have pairwise different names. *)
Definition snapshot_unique : Snap.DependencyStructureSnapshot :=
  Snap.mkDependencyStructureSnapshot [inv_a_last; inv_b].

Definition index_unique : Snap.DependencyStructureSnapshotIndex :=
  Snap.mkIndex (Snap.dict_of_invocations [inv_a_last; inv_b]).


Import SolidSnap.

#[local] Existing Instance toy_config_types.

(** The definitions behind the solids of [live_graph]: the atomic
    [emit] and [join], and a composite [wrap] around
    [graph_empty_port]. *)
Definition x_input : InputDefinition := mkInputDefinition "x" "Int" None.
Definition y_input : InputDefinition := mkInputDefinition "y" "Int" (Some "fan-in").
Definition result_output : OutputDefinition :=
  mkOutputDefinition "result" "Int" None true.

Definition emit_def : SolidDefinition :=
  mkSolidDefinition "emit" [] [result_output] None ∅ [] ∅ None.

Definition join_def : SolidDefinition :=
  mkSolidDefinition "join" [x_input; y_input] [result_output] (Some "joins")
    ∅ ["x"; "y"] {["db"]} (Some "limit").

Definition wrap_def : CompositeSolidDefinition :=
  mkCompositeSolidDefinition "wrap" [x_input] [result_output] None ∅ ["x"] ∅
    None graph_empty_port.

Definition sample_pipeline : PipelineDefinition :=
  mkPipelineDefinition (live_graph None)
    [Atomic emit_def; Composite wrap_def; Atomic join_def].

(** Schema builders for the samples: both snapshots are the number of
    definitions of the pipeline. *)
Definition toy_schema_builders : SchemaBuilders :=
  mkSchemaBuilders nat nat
    (fun p => length (all_solid_defs p))
    (fun p => length (all_solid_defs p)).

End MoreSamples.

(** ** Facts about the index *)

Module SnapFacts.
Import Snap SnapSpec.

Lemma scan_input_deps_None (i : string) (deps : list InputDependencySnap) :
  scan_input_deps i deps = None ↔ Forall (fun d => input_name d ≠ i) deps.
Proof.
  induction deps as [|d deps IH]; simpl.
  - split; [constructor | done].
  - case_decide as Hd.
    + split; [done |]. intros HF. inversion HF; subst. done.
    + rewrite IH. split.
      * intros HF. by constructor.
      * intros HF. by inversion HF.
Qed.

Lemma scan_input_deps_Some (i : string) (deps : list InputDependencySnap)
  (outs : list OutputHandleSnap) :
  scan_input_deps i deps = Some outs
  ↔ ∃ d, first_input_dep i deps d ∧ prev_output_snaps d = outs.
Proof.
  induction deps as [|d deps IH]; simpl.
  - split; [done |]. intros (d & (pre & post & Heq & _) & _).
    by destruct pre.
  - case_decide as Hd.
    + split.
      * intros [= <-]. exists d. split; [| done].
        exists [], deps. by repeat split.
      * intros (d0 & (pre & post & Heq & Hn & Hpre) & Hout).
        destruct pre as [|p pre]; simpl in Heq.
        -- injection Heq as -> _. by rewrite Hout.
        -- injection Heq as -> _. inversion Hpre; subst. done.
    + rewrite IH. split.
      * intros (d0 & (pre & post & Heq & Hn & Hpre) & Hout).
        exists d0. split; [| done].
        exists (d :: pre), post. subst deps. repeat split; [done |].
        by constructor.
      * intros (d0 & (pre & post & Heq & Hn & Hpre) & Hout).
        destruct pre as [|p pre]; simpl in Heq.
        -- injection Heq as -> _. done.
        -- injection Heq as -> ->. inversion Hpre; subst.
           exists d0. split; [| done]. by exists pre, post.
Qed.

(** A dependency named [i] anywhere in the list gives a first one. *)
Lemma first_input_dep_exists (i : string) (deps : list InputDependencySnap)
  (d : InputDependencySnap) :
  d ∈ deps → input_name d = i → ∃ d0, first_input_dep i deps d0.
Proof.
  intros Hin Hn.
  destruct (scan_input_deps i deps) as [outs|] eqn:Hscan.
  - apply scan_input_deps_Some in Hscan as (d0 & H0 & _). by exists d0.
  - apply scan_input_deps_None in Hscan.
    rewrite Forall_forall in Hscan. by destruct (Hscan d Hin).
Qed.

Lemma get_upstream_outputs_Ok (self : DependencyStructureSnapshotIndex)
  (sn i : string) (outs : list OutputHandleSnap) :
  get_upstream_outputs self sn i = Ok outs ↔ recorded self sn i outs.
Proof.
  unfold get_upstream_outputs, get_invocation, recorded.
  destruct (_invocations_dict self !! sn) as [inv|] eqn:Hinv; simpl.
  - destruct (scan_input_deps i (input_dep_snaps inv)) as [o|] eqn:Hscan.
    + apply scan_input_deps_Some in Hscan as Hfirst. split.
      * intros [= <-]. destruct Hfirst as (d & Hd & Ho). by exists inv, d.
      * intros (inv' & d & [= <-] & Hd & Ho).
        f_equal. assert (Some o = Some outs) as [= ->]; [| done].
        rewrite <- Hscan. apply scan_input_deps_Some. by exists d.
    + split; [done |].
      intros (inv' & d & [= <-] & Hd & Ho).
      assert (scan_input_deps i (input_dep_snaps inv) = Some outs) as Hs.
      { apply scan_input_deps_Some. by exists d. }
      congruence.
  - split; [done |]. by intros (inv' & d & ? & _).
Qed.

(** Stores after the last one under a key do not touch that key. *)
Lemma foldl_insert_other (k : string) (l : list SolidInvocationSnap)
  (d : gmap string SolidInvocationSnap) :
  Forall (fun s => solid_name s ≠ k) l →
  foldl (fun d si => <[solid_name si := si]> d) d l !! k = d !! k.
Proof.
  revert d. induction l as [|s l IH]; intros d HF; simpl; [done |].
  inversion HF; subst.
  rewrite IH; [| done]. by rewrite lookup_insert_ne.
Qed.

Lemma dict_of_invocations_last (l1 l2 : list SolidInvocationSnap)
  (si : SolidInvocationSnap) :
  Forall (fun s => solid_name s ≠ solid_name si) l2 →
  dict_of_invocations (l1 ++ si :: l2) !! solid_name si = Some si.
Proof.
  intros HF. unfold dict_of_invocations.
  rewrite foldl_app. simpl.
  rewrite foldl_insert_other; [| done].
  apply lookup_insert_eq.
Qed.

(** C10: building the index over a snapshot never fails, whatever names
    its invocations carry; and of the invocations of one name the index
    answers [get_invocation] with the one that comes last in the
    snapshot's list. *)
Theorem index_last_invocation_wins (l1 l2 : list SolidInvocationSnap)
  (si : SolidInvocationSnap) :
  Forall (fun s => solid_name s ≠ solid_name si) l2 →
  ∃ idx,
    DependencyStructureSnapshotIndex_init
      (mkDependencyStructureSnapshot (l1 ++ si :: l2)) = Ok idx
    ∧ get_invocation idx (solid_name si) = Ok si.
Proof.
  intros HF. eexists. split; [reflexivity |].
  unfold get_invocation. simpl.
  by rewrite dict_of_invocations_last.
Qed.

(** C4: for a node of the index, [get_upstream_output] returns a
    handle exactly when the index records, for that input of that node,
    a producer list of that one handle, and fails with the
    invariant-violation error of [dagster.check] in every other case:
    when the node has no Input Dependency of that name, and when the
    recorded producer list has no element or more than one.  For a node
    that is not in the index nothing is recorded and the call fails with
    the [KeyError] of the dict lookup instead. *)
Theorem get_upstream_output_single_producer
  (self : DependencyStructureSnapshotIndex) (sn i : string) :
  (∀ oh, get_upstream_output self sn i = Ok oh ↔ recorded self sn i [oh])
  ∧ (is_Some (_invocations_dict self !! sn) →
     (∀ oh, ¬ recorded self sn i [oh]) →
     raised_class (get_upstream_output self sn i) = Some CheckError)
  ∧ (∀ outs, recorded self sn i outs → length outs ≠ 1%nat →
       raised_class (get_upstream_output self sn i) = Some CheckError)
  ∧ (∀ inv, _invocations_dict self !! sn = Some inv →
       (∀ d, d ∈ input_dep_snaps inv → input_name d ≠ i) →
       raised_class (get_upstream_output self sn i) = Some CheckError)
  ∧ (_invocations_dict self !! sn = None →
     (∀ outs, ¬ recorded self sn i outs)
     ∧ get_upstream_output self sn i = Raise (mk_exn KeyError sn None)).
Proof.
  split; [| split; [| split; [| split]]].
  - intros oh. unfold get_upstream_output.
    destruct (get_upstream_outputs self sn i) as [outs|e] eqn:Hget; simpl.
    + apply get_upstream_outputs_Ok in Hget as Hrec.
      destruct outs as [|x [|y outs]]; simpl.
      * split; [done |]. intros Hr.
        apply get_upstream_outputs_Ok in Hr. congruence.
      * split.
        -- by intros [= <-].
        -- intros Hr. apply get_upstream_outputs_Ok in Hr. congruence.
      * split; [done |]. intros Hr.
        apply get_upstream_outputs_Ok in Hr. congruence.
    + split; [done |]. intros Hr.
      apply get_upstream_outputs_Ok in Hr. congruence.
  - intros [inv Hinv] Hnone. unfold get_upstream_output.
    destruct (get_upstream_outputs self sn i) as [outs|e] eqn:Hget; simpl.
    + apply get_upstream_outputs_Ok in Hget as Hrec.
      destruct outs as [|x [|y outs]]; simpl; [done | | done].
      by destruct (Hnone x).
    + unfold get_upstream_outputs, get_invocation in Hget.
      rewrite Hinv in Hget. simpl in Hget.
      destruct (scan_input_deps i (input_dep_snaps inv)); [done |].
      by injection Hget as <-.
  - intros outs Hrec Hlen. unfold get_upstream_output.
    apply get_upstream_outputs_Ok in Hrec. rewrite Hrec. simpl.
    by rewrite bool_decide_eq_false_2.
  - intros inv Hinv Habsent.
    unfold get_upstream_output, get_upstream_outputs, get_invocation.
    rewrite Hinv. simpl.
    assert (scan_input_deps i (input_dep_snaps inv) = None) as ->; [| done].
    apply scan_input_deps_None. by apply Forall_forall.
  - intros Hinv. split.
    + intros outs (inv & d & Hsome & _). congruence.
    + unfold get_upstream_output, get_upstream_outputs, get_invocation.
      by rewrite Hinv.
Qed.

(** C5: for a node of the index, [get_upstream_outputs] returns the
    producer list of the Input Dependency with that input name, whole
    and in its recorded order, whenever such a dependency is present,
    and fails with the invariant-violation error of [check.failed] when
    the node's invocation has no Input Dependency of that name. *)
Theorem get_upstream_outputs_fan_in
  (self : DependencyStructureSnapshotIndex) (sn i : string)
  (inv : SolidInvocationSnap) :
  _invocations_dict self !! sn = Some inv →
  (∀ d, first_input_dep i (input_dep_snaps inv) d →
        get_upstream_outputs self sn i = Ok (prev_output_snaps d))
  ∧ (∀ d, d ∈ input_dep_snaps inv → input_name d = i →
          ∃ d0, first_input_dep i (input_dep_snaps inv) d0
                ∧ get_upstream_outputs self sn i = Ok (prev_output_snaps d0))
  ∧ ((∀ d, d ∈ input_dep_snaps inv → input_name d ≠ i) →
     get_upstream_outputs self sn i
     = Raise (mk_exn CheckError
                ("Input " ++ i ++ " not found for solid " ++ sn) None)).
Proof.
  intros Hinv.
  assert (∀ d, first_input_dep i (input_dep_snaps inv) d →
               get_upstream_outputs self sn i = Ok (prev_output_snaps d)) as Hfirst.
  { intros d Hd. apply get_upstream_outputs_Ok. by exists inv, d. }
  split; [exact Hfirst |]. split.
  - intros d Hin Hn.
    destruct (first_input_dep_exists i _ d Hin Hn) as [d0 Hd0].
    exists d0. split; [done |]. by apply Hfirst.
  - intros Hnone.
    unfold get_upstream_outputs, get_invocation. rewrite Hinv. simpl.
    assert (scan_input_deps i (input_dep_snaps inv) = None) as ->; [| done].
    apply scan_input_deps_None. by apply Forall_forall.
Qed.

(** *** The builder *)

Lemma map_eq_transfer {A1 A2 B C : Type} (w1 : A1 → B) (w2 : A2 → B)
  (s1 : A1 → C) (s2 : A2 → C) (l1 : list A1) (l2 : list A2) :
  (∀ x y, w1 x = w2 y → s1 x = s2 y) →
  map w1 l1 = map w2 l2 → map s1 l1 = map s2 l2.
Proof.
  intros Hpt. revert l2.
  induction l1 as [|x l1 IH]; intros [|y l2]; simpl; try done.
  intros [= Hxy Hrest]. f_equal; [by apply Hpt | by apply IH].
Qed.

Lemma input_dependency_snap_wiring
  (x y : SolidInputHandle * list SolidOutputHandle) :
  wiring_of_item x = wiring_of_item y →
  input_dependency_snap x = input_dependency_snap y.
Proof.
  destruct x as [ih1 ohs1], y as [ih2 ohs2].
  unfold wiring_of_item, input_dependency_snap. simpl.
  intros [= Hn Hohs]. rewrite Hn. f_equal.
  eapply map_eq_transfer; [| exact Hohs].
  intros a b [= Ha Hb]. unfold output_handle_snap. by rewrite Ha, Hb.
Qed.

Lemma build_depends_on_wiring (g1 g2 : IContainSolids) :
  wiring g1 = wiring g2 →
  build_dep_structure_snapshot_from_icontains_solids g1
  = build_dep_structure_snapshot_from_icontains_solids g2.
Proof.
  unfold wiring, build_dep_structure_snapshot_from_icontains_solids.
  intros Hw. f_equal.
  eapply map_eq_transfer; [| exact Hw].
  intros a b [= Hn Hd Ht Hi]. unfold solid_invocation_snap.
  rewrite Hn, Hd, Ht. f_equal.
  eapply map_eq_transfer; [| exact Hi].
  apply input_dependency_snap_wiring.
Qed.

(** C6: the snapshot the builder returns is determined by the wiring of
    the graph it is given: graphs with equal wiring, and so two calls on
    one unchanged graph, give equal snapshots.  The invocations follow
    the iteration order of the graph's solids, and the input
    dependencies of each follow the order of the items of the mapping
    the graph supplies for that solid, producers in their listed
    order. *)
Theorem build_dep_structure_snapshot_deterministic (g : IContainSolids) :
  (∀ g', wiring g = wiring g' →
         build_dep_structure_snapshot_from_icontains_solids g
         = build_dep_structure_snapshot_from_icontains_solids g')
  ∧ map solid_name
        (solid_invocation_snaps (build_dep_structure_snapshot_from_icontains_solids g))
    = map name (solids g)
  ∧ (∀ k solid, solids g !! k = Some solid →
       ∃ inv,
         solid_invocation_snaps
           (build_dep_structure_snapshot_from_icontains_solids g) !! k = Some inv
         ∧ solid_name inv = name solid
         ∧ map input_name (input_dep_snaps inv)
           = map (fun item => input_def_name (input_def (fst item)))
                 (_upstream_outputs g solid)
         ∧ map prev_output_snaps (input_dep_snaps inv)
           = map (fun item => map output_handle_snap (snd item))
                 (_upstream_outputs g solid)).
Proof.
  split; [intros g'; apply build_depends_on_wiring |]. split.
  - unfold build_dep_structure_snapshot_from_icontains_solids. simpl.
    rewrite map_map. done.
  - intros k solid Hk.
    exists (solid_invocation_snap g solid). split.
    + unfold build_dep_structure_snapshot_from_icontains_solids. simpl.
      change (map (solid_invocation_snap g) (solids g))
        with (solid_invocation_snap g <$> solids g).
      by rewrite list_lookup_fmap, Hk.
    + split; [done |]. unfold solid_invocation_snap. simpl.
      rewrite !map_map. split; apply map_ext; by intros [ih ohs].
Qed.

(** C7: the builder emits one Input Dependency per item of the mapping
    the graph supplies for a solid, under the name of the item's input
    and with as many producers as the item lists.  So when every item
    the graph supplies lists at least one producer, every Input
    Dependency of the snapshot has at least one. *)
Theorem builder_producer_lists (g : IContainSolids) :
  Forall2
    (fun solid inv =>
       Forall2
         (fun item d =>
            input_name d = input_def_name (input_def (fst item))
            ∧ length (prev_output_snaps d) = length (snd item))
         (_upstream_outputs g solid) (input_dep_snaps inv))
    (solids g)
    (solid_invocation_snaps (build_dep_structure_snapshot_from_icontains_solids g))
  ∧ ((∀ solid item, solid ∈ solids g → item ∈ _upstream_outputs g solid →
        (1 ≤ length (snd item))%nat) →
     ∀ inv d,
       inv ∈ solid_invocation_snaps
               (build_dep_structure_snapshot_from_icontains_solids g) →
       d ∈ input_dep_snaps inv →
       (1 ≤ length (prev_output_snaps d))%nat).
Proof.
  unfold build_dep_structure_snapshot_from_icontains_solids. simpl. split.
  - change (map (solid_invocation_snap g) (solids g))
      with (solid_invocation_snap g <$> solids g).
    apply Forall2_fmap_r, Forall_Forall2_diag, Forall_forall.
    intros solid _. unfold solid_invocation_snap. simpl.
    change (map input_dependency_snap (_upstream_outputs g solid))
      with (input_dependency_snap <$> _upstream_outputs g solid).
    apply Forall2_fmap_r, Forall_Forall2_diag, Forall_forall.
    intros [ih ohs] _. simpl. split; [done |]. by rewrite length_map.
  - intros Hne inv d Hinv Hd.
    apply list_elem_of_In, in_map_iff in Hinv as (solid & <- & Hsolid).
    unfold solid_invocation_snap in Hd. simpl in Hd.
    apply list_elem_of_In, in_map_iff in Hd as ([ih ohs] & <- & Hitem).
    simpl. rewrite length_map.
    apply (Hne solid (ih, ohs)); by apply list_elem_of_In.
Qed.

(** *** The theorems on sample data *)

Import Samples.

Example index_dup_get_invocation : get_invocation index_dup "a" = Ok inv_a_last.
Proof. vm_compute. reflexivity. Qed.

Example index_dup_fan_in :
  get_upstream_outputs index_dup "b" "y"
  = Ok [mkOutputHandleSnap "a" "result"; mkOutputHandleSnap "c" "result"].
Proof. vm_compute. reflexivity. Qed.

Example index_dup_single :
  get_upstream_output index_dup "b" "x" = Ok (mkOutputHandleSnap "a" "result").
Proof. vm_compute. reflexivity. Qed.

Example index_dup_none_recorded :
  raised_class (get_upstream_output index_dup "b" "z") = Some CheckError.
Proof. vm_compute. reflexivity. Qed.

Example index_dup_no_input :
  raised_class (get_upstream_output index_dup "b" "w") = Some CheckError.
Proof. vm_compute. reflexivity. Qed.

Example empty_index_no_node :
  raised_class (get_upstream_output empty_index "a" "x") = Some KeyError.
Proof. vm_compute. reflexivity. Qed.

Lemma index_last_invocation_wins_witness :
  Forall (fun s => solid_name s ≠ solid_name inv_a_last) [inv_b]
  ∧ ∃ idx,
      DependencyStructureSnapshotIndex_init snapshot_dup = Ok idx
      ∧ get_invocation idx "a" = Ok inv_a_last.
Proof.
  assert (Forall (fun s => solid_name s ≠ solid_name inv_a_last) [inv_b]) as HF.
  { constructor; [discriminate | constructor]. }
  split; [exact HF |].
  exact (index_last_invocation_wins [inv_a_first] [inv_b] inv_a_last HF).
Defined.

Lemma get_upstream_output_single_producer_witness :
  recorded index_dup "b" "x" [mkOutputHandleSnap "a" "result"]
  ∧ get_upstream_output index_dup "b" "x" = Ok (mkOutputHandleSnap "a" "result")
  ∧ recorded index_dup "b" "y" (prev_output_snaps dep_y)
  ∧ length (prev_output_snaps dep_y) ≠ 1%nat
  ∧ raised_class (get_upstream_output index_dup "b" "y") = Some CheckError
  ∧ _invocations_dict index_dup !! "b" = Some inv_b
  ∧ (∀ d, d ∈ input_dep_snaps inv_b → input_name d ≠ "w")
  ∧ raised_class (get_upstream_output index_dup "b" "w") = Some CheckError.
Proof.
  assert (_invocations_dict index_dup !! "b" = Some inv_b) as Hb
    by (vm_compute; reflexivity).
  assert (recorded index_dup "b" "x" [mkOutputHandleSnap "a" "result"]) as Hx.
  { exists inv_b, dep_x. split; [exact Hb |]. split; [| reflexivity].
    exists [], [dep_y; dep_z]. split; [reflexivity |]. split; [reflexivity |].
    constructor. }
  assert (recorded index_dup "b" "y" (prev_output_snaps dep_y)) as Hrec.
  { exists inv_b, dep_y. split; [exact Hb |]. split; [| reflexivity].
    exists [dep_x], [dep_z]. split; [reflexivity |]. split; [reflexivity |].
    constructor; [discriminate | constructor]. }
  assert (length (prev_output_snaps dep_y) ≠ 1%nat) as Hlen by discriminate.
  assert (∀ d, d ∈ input_dep_snaps inv_b → input_name d ≠ "w") as Hw.
  { intros d Hd. apply list_elem_of_In in Hd. simpl in Hd.
    destruct Hd as [<- | [<- | [<- | []]]]; discriminate. }
  pose proof (get_upstream_output_single_producer index_dup "b" "x")
    as (Tx & _).
  pose proof (get_upstream_output_single_producer index_dup "b" "y")
    as (_ & _ & Ty & _).
  pose proof (get_upstream_output_single_producer index_dup "b" "w")
    as (_ & _ & _ & Tw & _).
  split; [exact Hx |]. split; [exact (proj2 (Tx _) Hx) |].
  split; [exact Hrec |]. split; [exact Hlen |].
  split; [exact (Ty _ Hrec Hlen) |].
  split; [exact Hb |]. split; [exact Hw |].
  exact (Tw inv_b Hb Hw).
Defined.

(** On the empty index nothing is recorded for input [x] of node [a],
    and [get_upstream_output] fails there with [KeyError], which is not
    the invariant-violation error. *)
Lemma get_upstream_output_absent_node_key_error :
  (∀ outs, ¬ recorded empty_index "a" "x" outs)
  ∧ get_upstream_output empty_index "a" "x" = Raise (mk_exn KeyError "a" None)
  ∧ raised_class (get_upstream_output empty_index "a" "x") ≠ Some CheckError.
Proof.
  split; [| split].
  - intros outs (inv & d & Hsome & _). vm_compute in Hsome. discriminate Hsome.
  - vm_compute. reflexivity.
  - vm_compute. discriminate.
Qed.

Lemma get_upstream_outputs_fan_in_witness :
  _invocations_dict index_dup !! "b" = Some inv_b
  ∧ first_input_dep "y" (input_dep_snaps inv_b) dep_y
  ∧ get_upstream_outputs index_dup "b" "y" = Ok (prev_output_snaps dep_y)
  ∧ ((∀ d, d ∈ input_dep_snaps inv_b → input_name d ≠ "w") →
     raised_class (get_upstream_outputs index_dup "b" "w") = Some CheckError).
Proof.
  assert (_invocations_dict index_dup !! "b" = Some inv_b) as Hb
    by (vm_compute; reflexivity).
  assert (first_input_dep "y" (input_dep_snaps inv_b) dep_y) as Hy.
  { exists [dep_x], [dep_z]. split; [reflexivity |]. split; [reflexivity |].
    constructor; [discriminate | constructor]. }
  pose proof (get_upstream_outputs_fan_in index_dup "b" "y" inv_b Hb) as Ty.
  pose proof (get_upstream_outputs_fan_in index_dup "b" "w" inv_b Hb) as Tw.
  split; [exact Hb |]. split; [exact Hy |]. split.
  - exact (proj1 Ty dep_y Hy).
  - intros Hw. rewrite (proj2 (proj2 Tw) Hw). reflexivity.
Defined.

Lemma build_dep_structure_snapshot_deterministic_witness :
  wiring (live_graph None) = wiring (live_graph (Some "documented"))
  ∧ solids (live_graph None) !! 1%nat = Some (live_solid None "b" "join")
  ∧ build_dep_structure_snapshot_from_icontains_solids (live_graph None)
    = build_dep_structure_snapshot_from_icontains_solids
        (live_graph (Some "documented"))
  ∧ ∃ inv,
      solid_invocation_snaps
        (build_dep_structure_snapshot_from_icontains_solids (live_graph None))
        !! 1%nat = Some inv
      ∧ map input_name (input_dep_snaps inv) = ["x"; "y"].
Proof.
  pose proof (build_dep_structure_snapshot_deterministic (live_graph None))
    as (Hdet & _ & Horder).
  assert (wiring (live_graph None) = wiring (live_graph (Some "documented")))
    as Hw by reflexivity.
  assert (solids (live_graph None) !! 1%nat = Some (live_solid None "b" "join"))
    as Hk by reflexivity.
  split; [exact Hw |]. split; [exact Hk |]. split; [exact (Hdet _ Hw) |].
  destruct (Horder _ _ Hk) as (inv & Hinv & _ & Hnames & _).
  exists inv. split; [exact Hinv |]. rewrite Hnames. reflexivity.
Defined.

(** The builder on [graph_empty_port] emits the Input Dependency [x]
    of [b] with an empty producer list. *)
Lemma builder_emits_empty_producer_list :
  solid_invocation_snaps
    (build_dep_structure_snapshot_from_icontains_solids graph_empty_port)
  = [mkSolidInvocationSnap "b" "join" ∅ [mkInputDependencySnap "x" []]]
  ∧ ¬ (∀ inv d,
         inv ∈ solid_invocation_snaps
                 (build_dep_structure_snapshot_from_icontains_solids graph_empty_port) →
         d ∈ input_dep_snaps inv →
         (1 ≤ length (prev_output_snaps d))%nat).
Proof.
  split; [reflexivity |]. intros Hall.
  specialize (Hall (mkSolidInvocationSnap "b" "join" ∅ [mkInputDependencySnap "x" []])
                (mkInputDependencySnap "x" [])).
  simpl in Hall.
  assert (1 ≤ 0)%nat as Hle; [| lia].
  apply Hall; by left.
Qed.

Lemma builder_producer_lists_witness :
  (∀ solid item,
     solid ∈ solids (live_graph None) →
     item ∈ _upstream_outputs (live_graph None) solid →
     (1 ≤ length (snd item))%nat)
  ∧ ∀ inv d,
      inv ∈ solid_invocation_snaps
              (build_dep_structure_snapshot_from_icontains_solids (live_graph None)) →
      d ∈ input_dep_snaps inv →
      (1 ≤ length (prev_output_snaps d))%nat.
Proof.
  assert (∀ solid item,
            solid ∈ solids (live_graph None) →
            item ∈ _upstream_outputs (live_graph None) solid →
            (1 ≤ length (snd item))%nat) as Hne.
  { intros solid item Hs Hi. simpl in Hs.
    rewrite !elem_of_cons, elem_of_nil in Hs.
    apply list_elem_of_In in Hi.
    destruct Hs as [-> | [-> | [-> | []]]]; vm_compute in Hi;
      repeat (destruct Hi as [<- | Hi]); try (by destruct Hi); simpl; lia. }
  split; [exact Hne |].
  exact (proj2 (builder_producer_lists (live_graph None)) Hne).
Defined.

End SnapFacts.

(** ** Facts about the schedule storage *)

Module StorageFacts.
Import Storage.

Section WithSerdes.

Context `{Serdes}.

Lemma filter_nothing {A : Type} (f : A → bool) (l : list A) :
  (∀ x, x ∈ l → f x = false) → List.filter f l = [].
Proof.
  induction l as [|x l IH]; intros Hf; simpl; [done |].
  rewrite (Hf x); [| by left].
  apply IH. intros y Hy. apply Hf. by right.
Qed.

Lemma map_nothing {A : Type} (f : A → bool) (g : A → A) (l : list A) :
  (∀ x, x ∈ l → f x = false) → map (fun x => if f x then g x else x) l = l.
Proof.
  induction l as [|x l IH]; intros Hf; simpl; [done |].
  rewrite (Hf x); [| by left].
  f_equal. apply IH. intros y Hy. apply Hf. by right.
Qed.

Lemma key_taken_spec (tbl : list ScheduleRow) (row : ScheduleRow) :
  key_taken tbl row = true
  ↔ ∃ r, r ∈ tbl ∧ repository_name r = repository_name row
         ∧ schedule_name r = schedule_name row.
Proof.
  unfold key_taken. rewrite existsb_exists. split.
  - intros (r & Hin & Hb). apply andb_prop in Hb as [H1 H2].
    apply bool_decide_eq_true in H1, H2.
    exists r. by rewrite list_elem_of_In.
  - intros (r & Hin & H1 & H2). exists r. rewrite <- list_elem_of_In.
    split; [done |]. by rewrite !bool_decide_eq_true_2.
Qed.

(** With a repository, the rows of that repository are decoded; they
    come in the order [conn_execute] lists them in. *)
Lemma all_schedules_repository (r : RepositoryDefinition) (st : Store) :
  all_schedules (Some r) st
  = Ok (map deserialize_json_to_dagster_namedtuple
          (map schedule_body
             (List.filter (fun row => bool_decide (repository_name row = repo_name r))
                (ScheduleTable st)))).
Proof.
  unfold all_schedules, execute, _deserialize_rows. simpl.
  do 3 f_equal. apply filter_ext. intros row.
  unfold schedule_row_matches. simpl. apply andb_true_r.
Qed.

(** C1: called without a repository, [all_schedules] reads the local
    [query] that only the branch for a given repository assigns, and
    raises [UnboundLocalError] instead of returning the stored
    schedules; called with a repository it returns the decoded bodies
    of exactly the rows of that repository, each row once, in an order
    the storage does not fix. *)
Theorem all_schedules_repository_omitted :
  (∀ st, all_schedules None st
         = Raise (mk_exn UnboundLocalError
                    "local variable 'query' referenced before assignment" None))
  ∧ (∀ r st, ∃ rows,
       rows ≡ₚ List.filter
                 (fun row => bool_decide (repository_name row = repo_name r))
                 (ScheduleTable st)
       ∧ all_schedules (Some r) st
         = Ok (map deserialize_json_to_dagster_namedtuple (map schedule_body rows))).
Proof.
  split; [done |]. intros r st. eexists. split; [reflexivity |].
  apply all_schedules_repository.
Qed.

(** The conflict path of [add_schedule]. *)
Lemma add_schedule_key_taken (repository : RepositoryDefinition)
  (schedule : Schedule) (st : Store) :
  (∃ row, row ∈ ScheduleTable st
          ∧ repository_name row = repo_name repository
          ∧ schedule_name row = name schedule) →
  add_schedule repository schedule st
  = (Raise (mk_exn DagsterInvariantViolationError
              ("Schedule " ++ name schedule ++ " for repository "
                 ++ repo_name repository ++ " is already present in storage")
              (Some IntegrityError)),
     st).
Proof.
  intros Hrow. unfold add_schedule, conn_execute.
  assert (key_taken (ScheduleTable st)
            (mkScheduleRow (repo_name repository) (name schedule)
               (ScheduleStatus_value (status schedule))
               (serialize_dagster_namedtuple (NT_Schedule schedule))) = true) as ->.
  { by apply key_taken_spec. }
  done.
Qed.

(** C2: adding a schedule whose (repository name, schedule name) some
    row already carries raises [DagsterInvariantViolationError] with the
    message "already present", the storage's [IntegrityError] kept only
    as its cause, and leaves the store as it was. *)
Theorem add_schedule_conflict (repository : RepositoryDefinition)
  (schedule : Schedule) (st : Store) :
  (∃ row, row ∈ ScheduleTable st
          ∧ repository_name row = repo_name repository
          ∧ schedule_name row = name schedule) →
  add_schedule repository schedule st
  = (Raise (mk_exn DagsterInvariantViolationError
              ("Schedule " ++ name schedule ++ " for repository "
                 ++ repo_name repository ++ " is already present in storage")
              (Some IntegrityError)),
     st)
  ∧ raised_class (fst (add_schedule repository schedule st)) ≠ Some IntegrityError.
Proof.
  intros Hrow. by rewrite (add_schedule_key_taken _ _ _ Hrow).
Qed.

(** A schedule added once cannot be added again. *)
Lemma add_schedule_twice (repository : RepositoryDefinition)
  (schedule : Schedule) (st st' : Store) :
  add_schedule repository schedule st = (Ok schedule, st') →
  add_schedule repository schedule st'
  = (Raise (mk_exn DagsterInvariantViolationError
              ("Schedule " ++ name schedule ++ " for repository "
                 ++ repo_name repository ++ " is already present in storage")
              (Some IntegrityError)),
     st').
Proof.
  intros Hadd. apply add_schedule_key_taken.
  unfold add_schedule, conn_execute in Hadd.
  destruct (key_taken _ _); simpl in Hadd; [done |].
  injection Hadd as <-. simpl.
  eexists. split; [apply elem_of_app; right; by left | done].
Qed.

Lemma get_schedule_by_name_absent (repository : RepositoryDefinition)
  (n : string) (st : Store) :
  (∀ row, row ∈ ScheduleTable st →
          ¬ (repository_name row = repo_name repository ∧ schedule_name row = n)) →
  get_schedule_by_name repository n st = Ok None.
Proof.
  intros Habs. unfold get_schedule_by_name, execute. simpl.
  rewrite filter_nothing; [done |].
  intros row Hrow. unfold schedule_row_matches. simpl.
  rewrite andb_true_r. apply andb_false_iff.
  destruct (decide (repository_name row = repo_name repository)) as [H1|H1].
  - right. apply bool_decide_eq_false_2. intros H2. by apply (Habs row).
  - left. by apply bool_decide_eq_false_2.
Qed.

(** C3: updating or deleting a schedule that no row carries raises
    [DagsterInvariantViolationError] with the message "not present" and
    no cause, and leaves the store as it was.  The class of that error
    is the class of the error [add_schedule] raises on a conflict. *)
Theorem update_delete_not_present (repository : RepositoryDefinition)
  (schedule : Schedule) (st : Store) :
  (∀ row, row ∈ ScheduleTable st →
          ¬ (repository_name row = repo_name repository
             ∧ schedule_name row = name schedule)) →
  update_schedule repository schedule st
  = (Raise (mk_exn DagsterInvariantViolationError
              ("Schedule " ++ name schedule ++ " for repository "
                 ++ repo_name repository ++ " is not present in storage")
              None),
     st)
  ∧ delete_schedule repository schedule st
    = (Raise (mk_exn DagsterInvariantViolationError
                ("Schedule " ++ name schedule ++ " for repository "
                   ++ repo_name repository ++ " is not present in storage")
                None),
       st)
  ∧ (∀ repository' schedule' st',
       (∃ row, row ∈ ScheduleTable st'
               ∧ repository_name row = repo_name repository'
               ∧ schedule_name row = name schedule') →
       raised_class (fst (add_schedule repository' schedule' st'))
       = raised_class (fst (update_schedule repository schedule st))
       ∧ raised_class (fst (add_schedule repository' schedule' st'))
         = raised_class (fst (delete_schedule repository schedule st))).
Proof.
  intros Habs. unfold update_schedule, delete_schedule.
  rewrite (get_schedule_by_name_absent _ _ _ Habs). simpl.
  split; [done |]. split; [done |].
  intros repository' schedule' st' Hrow.
  by rewrite (add_schedule_key_taken _ _ _ Hrow).
Qed.

Lemma wipe_store (st : Store) :
  wipe st = (Ok tt, mkStore [] (ScheduleTickTable st) (tick_id_seq st)).
Proof.
  unfold wipe, conn_execute. simpl.
  by rewrite filter_nothing.
Qed.

(** C8: [wipe] empties the Schedule table and leaves the Schedule Tick
    table as it was, so the ticks of every schedule read as before and
    [all_schedules] with a repository returns no schedule; without a
    repository [all_schedules] still raises [UnboundLocalError]. *)
Theorem wipe_scope (st : Store) :
  fst (wipe st) = Ok tt
  ∧ ScheduleTable (snd (wipe st)) = []
  ∧ ScheduleTickTable (snd (wipe st)) = ScheduleTickTable st
  ∧ (∀ r n, get_schedule_ticks_by_schedule r n (snd (wipe st))
            = get_schedule_ticks_by_schedule r n st)
  ∧ (∀ r, all_schedules (Some r) (snd (wipe st)) = Ok [])
  ∧ raised_class (all_schedules None (snd (wipe st))) = Some UnboundLocalError.
Proof.
  rewrite wipe_store. simpl. repeat split.
Qed.

(** C9: [update_schedule_tick] returns its tick whatever the table
    holds.  It rewrites the status and the body of the rows whose id is
    the tick's id and nothing else; when no row has that id the store is
    left as it was and no error is raised. *)
Theorem update_schedule_tick_by_id (repository : RepositoryDefinition)
  (tick : ScheduleTick) (st : Store) :
  fst (update_schedule_tick repository tick st) = Ok tick
  ∧ ScheduleTable (snd (update_schedule_tick repository tick st)) = ScheduleTable st
  ∧ ScheduleTickTable (snd (update_schedule_tick repository tick st))
    = map (fun r =>
             if bool_decide (id r = tick_id tick)
             then mkScheduleTickRow (id r) (tick_repository_name r)
                    (tick_schedule_name r)
                    (ScheduleTickStatus_value (tick_status tick))
                    (timestamp r)
                    (serialize_dagster_namedtuple
                       (NT_ScheduleTickData (schedule_tick_data tick)))
             else r)
          (ScheduleTickTable st)
  ∧ ((∀ r, r ∈ ScheduleTickTable st → id r ≠ tick_id tick) →
     update_schedule_tick repository tick st = (Ok tick, st)).
Proof.
  unfold update_schedule_tick, conn_execute. simpl.
  split; [done |]. split; [done |]. split.
  - apply map_ext. intros r. unfold tick_row_matches. simpl.
    by rewrite andb_true_r.
  - intros Hnone. f_equal. destruct st as [tbl ticks seq]. simpl in *.
    f_equal. apply map_nothing. intros r Hr.
    unfold tick_row_matches. simpl. rewrite andb_true_r.
    apply bool_decide_eq_false_2. by apply Hnone.
Qed.

End WithSerdes.

(** *** The theorems on sample data *)

Section OnSamples.

Import Samples.

#[local] Existing Instance toy_serdes.

Example all_schedules_of_repo :
  all_schedules (Some repo) store1 = Ok [NT_Schedule (mkSchedule "daily" RUNNING "")].
Proof. reflexivity. Qed.

Example all_schedules_no_repo :
  raised_class (all_schedules None store1) = Some UnboundLocalError.
Proof. reflexivity. Qed.

Example get_schedule_by_name_found :
  get_schedule_by_name repo "daily" store1 = Ok (Some (NT_Schedule daily)).
Proof. reflexivity. Qed.

Example tick_lifecycle :
  let success := mkScheduleTick 1 (mkScheduleTickData "daily" SUCCESS 0 "") in
  let '(created, st1) := create_schedule_tick repo daily_started (mkStore [] [] 1) in
  let '(updated, st2) := update_schedule_tick repo success st1 in
  created = Ok (mkScheduleTick 1 daily_started)
  ∧ updated = Ok success
  ∧ get_schedule_ticks_by_schedule repo "daily" st2 = Ok [success].
Proof. vm_compute. repeat split. Qed.

Lemma add_schedule_conflict_witness :
  (∃ row, row ∈ ScheduleTable store1
          ∧ repository_name row = repo_name repo
          ∧ schedule_name row = name daily)
  ∧ raised_class (fst (add_schedule repo daily store1))
    = Some DagsterInvariantViolationError
  ∧ snd (add_schedule repo daily store1) = store1.
Proof.
  assert (∃ row, row ∈ ScheduleTable store1
                 ∧ repository_name row = repo_name repo
                 ∧ schedule_name row = name daily) as Hrow.
  { eexists. split; [by left |]. split; reflexivity. }
  split; [exact Hrow |].
  rewrite (proj1 (add_schedule_conflict repo daily store1 Hrow)).
  split; reflexivity.
Defined.

(** On [store1] the error of [update_schedule] and of [delete_schedule]
    for the absent schedule [weekly] has the class of the error of
    [add_schedule] for the present schedule [daily]. *)
Lemma not_present_error_has_conflict_class :
  raised_class (fst (add_schedule repo daily store1))
  = Some DagsterInvariantViolationError
  ∧ raised_class (fst (update_schedule repo weekly store1))
    = raised_class (fst (add_schedule repo daily store1))
  ∧ raised_class (fst (delete_schedule repo weekly store1))
    = raised_class (fst (add_schedule repo daily store1))
  ∧ ¬ (raised_class (fst (update_schedule repo weekly store1))
       ≠ raised_class (fst (add_schedule repo daily store1))
       ∧ raised_class (fst (delete_schedule repo weekly store1))
         ≠ raised_class (fst (add_schedule repo daily store1))).
Proof.
  repeat split. intros [Hne _]. by apply Hne.
Qed.

Lemma update_delete_not_present_witness :
  (∀ row, row ∈ ScheduleTable store1 →
          ¬ (repository_name row = repo_name repo
             ∧ schedule_name row = name weekly))
  ∧ raised_class (fst (update_schedule repo weekly store1))
    = Some DagsterInvariantViolationError
  ∧ snd (update_schedule repo weekly store1) = store1
  ∧ raised_class (fst (delete_schedule repo weekly store1))
    = Some DagsterInvariantViolationError
  ∧ snd (delete_schedule repo weekly store1) = store1.
Proof.
  assert (∀ row, row ∈ ScheduleTable store1 →
                 ¬ (repository_name row = repo_name repo
                    ∧ schedule_name row = name weekly)) as Habs.
  { intros row Hrow [_ Hn]. apply list_elem_of_In in Hrow. simpl in Hrow.
    destruct Hrow as [<- | [<- | []]]; discriminate Hn. }
  split; [exact Habs |].
  destruct (update_delete_not_present repo weekly store1 Habs) as (-> & -> & _).
  repeat split.
Defined.

Lemma update_schedule_tick_by_id_witness :
  (∀ r, r ∈ ScheduleTickTable store1 →
        id r ≠ tick_id (mkScheduleTick 7 daily_started))
  ∧ update_schedule_tick repo (mkScheduleTick 7 daily_started) store1
    = (Ok (mkScheduleTick 7 daily_started), store1).
Proof.
  assert (∀ r, r ∈ ScheduleTickTable store1 →
               id r ≠ tick_id (mkScheduleTick 7 daily_started)) as Hnone.
  { intros r Hr. apply list_elem_of_In in Hr. simpl in Hr.
    destruct Hr as [<- | [<- | []]]; discriminate. }
  split; [exact Hnone |].
  exact (proj2 (proj2 (proj2
           (update_schedule_tick_by_id repo (mkScheduleTick 7 daily_started) store1)))
           Hnone).
Defined.

Example update_schedule_present :
  let '(res, st) := update_schedule repo (mkSchedule "daily" STOPPED "") store1 in
  res = Ok tt
  ∧ map (fun r => (repository_name r, schedule_name r, schedule_status r))
        (ScheduleTable st)
    = [("repo", "daily", "STOPPED"); ("other", "daily", "STOPPED")]
  ∧ get_schedule_by_name repo "daily" st
    = Ok (Some (NT_Schedule (mkSchedule "daily" STOPPED ""))).
Proof. vm_compute. repeat split. Qed.

Example delete_schedule_present :
  let '(res, st) := delete_schedule repo daily store1 in
  res = Ok tt
  ∧ map (fun r => (repository_name r, schedule_name r)) (ScheduleTable st)
    = [("other", "daily")]
  ∧ ScheduleTickTable st = ScheduleTickTable store1.
Proof. vm_compute. repeat split. Qed.

Example add_schedule_fresh :
  let '(res, st) := add_schedule repo weekly store1 in
  res = Ok weekly
  ∧ map (fun r => (repository_name r, schedule_name r)) (ScheduleTable st)
    = [("repo", "daily"); ("other", "daily"); ("repo", "weekly")].
Proof. vm_compute. repeat split. Qed.

Example update_schedule_tick_hit :
  map (fun r => (id r, tick_row_status r))
      (ScheduleTickTable
         (snd (update_schedule_tick repo
                 (mkScheduleTick 2 (mkScheduleTickData "daily" SUCCESS 60 "")) store1)))
  = [(1, "STARTED"); (2, "SUCCESS")].
Proof. reflexivity. Qed.

End OnSamples.

End StorageFacts.

(** ** Reading and writing schedules and ticks *)

Module StorageMore.
Import Storage StorageSpec.

Section WithSerdes.

Context `{Serdes}.

Lemma schedule_row_matches_key (rn sn : string) (r : ScheduleRow) :
  schedule_row_matches [c_repository_name_eq rn; c_schedule_name_eq sn] r
  = row_has_key rn sn r.
Proof.
  unfold schedule_row_matches, row_has_key. simpl. by rewrite andb_true_r.
Qed.


(** [get_schedule_by_name] as a lookup of the first row with the key. *)
Lemma get_schedule_by_name_head (repository : RepositoryDefinition)
  (n : string) (st : Store) :
  get_schedule_by_name repository n st
  = Ok (deserialize_json_to_dagster_namedtuple
          <$> head (map schedule_body
                      (List.filter (row_has_key (repo_name repository) n)
                         (ScheduleTable st)))).
Proof.
  unfold get_schedule_by_name, execute. simpl.
  rewrite (filter_ext _ _ (schedule_row_matches_key (repo_name repository) n)).
  by destruct (map schedule_body _).
Qed.

Lemma filter_first {A : Type} (f : A → bool) (pre post : list A) (x : A) :
  f x = true → Forall (fun y => f y = false) pre →
  List.filter f (pre ++ x :: post) = x :: List.filter f post.
Proof.
  intros Hx Hpre. induction Hpre as [|y pre Hy _ IH]; simpl.
  - by rewrite Hx.
  - by rewrite Hy.
Qed.

Lemma filter_none_iff {A : Type} (f : A → bool) (l : list A) :
  List.filter f l = [] ↔ ∀ x, x ∈ l → f x = false.
Proof.
  induction l as [|x l IH]; simpl.
  - split; [| done]. intros _ y Hy. by apply elem_of_nil in Hy.
  - destruct (f x) eqn:Hx.
    + split; [done |]. intros Hall. specialize (Hall x (list_elem_of_here x l)).
      congruence.
    + rewrite IH. split.
      * intros Hall y Hy. apply elem_of_cons in Hy as [-> | Hy]; [done | by apply Hall].
      * intros Hall y Hy. apply Hall. by right.
Qed.

(** X1: [get_schedule_by_name] never raises.  It decodes the body of
    the first row of the Schedule table that carries the repository's
    name and the schedule name, and answers [None] when no row does. *)
Theorem get_schedule_by_name_first_row (repository : RepositoryDefinition)
  (n : string) (st : Store) :
  (∀ row, first_row_with_key (repo_name repository) n (ScheduleTable st) row →
          get_schedule_by_name repository n st
          = Ok (Some (deserialize_json_to_dagster_namedtuple (schedule_body row))))
  ∧ ((∀ row, row ∈ ScheduleTable st →
             row_has_key (repo_name repository) n row = false) →
     get_schedule_by_name repository n st = Ok None)
  ∧ (get_schedule_by_name repository n st = Ok None →
     ∀ row, row ∈ ScheduleTable st →
            row_has_key (repo_name repository) n row = false)
  ∧ is_ok (get_schedule_by_name repository n st) = true.
Proof.
  rewrite get_schedule_by_name_head. repeat split.
  - intros row (pre & post & -> & Hrow & Hpre).
    by rewrite (filter_first _ pre post row Hrow Hpre).
  - intros Hnone. apply filter_none_iff in Hnone. by rewrite Hnone.
  - intros Hres. apply filter_none_iff.
    destruct (List.filter _ _); [done | discriminate Hres].
Qed.

Lemma key_taken_false (tbl : list ScheduleRow) (row : ScheduleRow) :
  key_taken tbl row = false
  ↔ ∀ r, r ∈ tbl → row_has_key (repository_name row) (schedule_name row) r = false.
Proof.
  unfold key_taken.
  induction tbl as [|x tbl IH]; simpl.
  - split; [| done]. intros _ r Hr. by apply elem_of_nil in Hr.
  - rewrite orb_false_iff, IH. split.
    + intros [Hx Hall] r Hr.
      apply elem_of_cons in Hr as [-> | Hr]; [exact Hx | by apply Hall].
    + intros Hall. split; [apply Hall; by left |].
      intros r Hr. apply Hall. by right.
Qed.

Lemma add_schedule_free (repository : RepositoryDefinition) (schedule : Schedule)
  (st : Store) :
  (∀ r, r ∈ ScheduleTable st →
        row_has_key (repo_name repository) (name schedule) r = false) →
  add_schedule repository schedule st
  = (Ok schedule,
     mkStore (ScheduleTable st ++ [schedule_row repository schedule])
       (ScheduleTickTable st) (tick_id_seq st)).
Proof.
  intros Hfree. unfold add_schedule, conn_execute.
  assert (key_taken (ScheduleTable st) (schedule_row repository schedule) = false) as Hk.
  { by apply key_taken_false. }
  unfold schedule_row in Hk. by rewrite Hk.
Qed.

Lemma add_schedule_taken (repository : RepositoryDefinition) (schedule : Schedule)
  (st : Store) :
  ¬ (∀ r, r ∈ ScheduleTable st →
          row_has_key (repo_name repository) (name schedule) r = false) →
  is_ok (fst (add_schedule repository schedule st)) = false
  ∧ snd (add_schedule repository schedule st) = st.
Proof.
  intros Htaken. unfold add_schedule, conn_execute.
  destruct (key_taken _ _) eqn:Hk; [done |].
  destruct Htaken. exact (proj1 (key_taken_false _ _) Hk).
Qed.

(** X2: [add_schedule] succeeds exactly when no row carries the key
    (repository name, schedule name).  On success the new row is put
    after the rows already there; on failure the store is left as it
    was; the Schedule Tick table is never touched. *)
Theorem add_schedule_outcome (repository : RepositoryDefinition)
  (schedule : Schedule) (st : Store) :
  (is_ok (fst (add_schedule repository schedule st)) = true
   ↔ ∀ r, r ∈ ScheduleTable st →
          row_has_key (repo_name repository) (name schedule) r = false)
  ∧ (is_ok (fst (add_schedule repository schedule st)) = true →
     fst (add_schedule repository schedule st) = Ok schedule
     ∧ ScheduleTable (snd (add_schedule repository schedule st))
       = ScheduleTable st ++ [schedule_row repository schedule])
  ∧ (is_ok (fst (add_schedule repository schedule st)) = false →
     snd (add_schedule repository schedule st) = st)
  ∧ ScheduleTickTable (snd (add_schedule repository schedule st))
    = ScheduleTickTable st.
Proof.
  destruct (key_taken (ScheduleTable st) (schedule_row repository schedule)) eqn:Hk.
  - assert (¬ (∀ r, r ∈ ScheduleTable st →
                    row_has_key (repo_name repository) (name schedule) r = false))
      as Htaken.
    { intros Hfree. apply (key_taken_false _ (schedule_row repository schedule)) in Hfree.
      congruence. }
    destruct (add_schedule_taken _ _ _ Htaken) as [Hfail Hst].
    rewrite Hfail, Hst. repeat split; try done.
  - pose proof (proj1 (key_taken_false _ _) Hk) as Hfree. simpl in Hfree.
    rewrite (add_schedule_free _ _ _ Hfree). simpl. by repeat split.
Qed.

Lemma row_has_key_inj (rn sn rn' sn' : string) (r : ScheduleRow) :
  row_has_key rn sn r = true → row_has_key rn' sn' r = true → (rn', sn') = (rn, sn).
Proof.
  unfold row_has_key. intros H1 H2.
  apply andb_prop in H1 as [Ha Hb]. apply andb_prop in H2 as [Hc Hd].
  apply bool_decide_eq_true in Ha, Hb, Hc, Hd. congruence.
Qed.

Lemma schedule_row_has_key (repository : RepositoryDefinition) (schedule : Schedule) :
  row_has_key (repo_name repository) (name schedule)
    (schedule_row repository schedule) = true.
Proof.
  unfold row_has_key, schedule_row. simpl. by rewrite !bool_decide_eq_true_2.
Qed.

(** X3: a schedule added under a free key reads back through
    [get_schedule_by_name] as the decoding of its encoding, and the
    answer for every other (repository, schedule name) is what it was
    before. *)
Theorem add_schedule_then_get (repository : RepositoryDefinition)
  (schedule : Schedule) (st : Store) :
  (∀ r, r ∈ ScheduleTable st →
        row_has_key (repo_name repository) (name schedule) r = false) →
  get_schedule_by_name repository (name schedule)
    (snd (add_schedule repository schedule st))
  = Ok (Some (deserialize_json_to_dagster_namedtuple
                (serialize_dagster_namedtuple (NT_Schedule schedule))))
  ∧ ∀ repository' n',
      (repo_name repository', n') ≠ (repo_name repository, name schedule) →
      get_schedule_by_name repository' n' (snd (add_schedule repository schedule st))
      = get_schedule_by_name repository' n' st.
Proof.
  intros Hfree. rewrite (add_schedule_free _ _ _ Hfree). simpl.
  rewrite !get_schedule_by_name_head. simpl. split.
  - rewrite List.filter_app. apply filter_none_iff in Hfree. rewrite Hfree. simpl.
    by rewrite schedule_row_has_key.
  - intros repository' n' Hne. rewrite !get_schedule_by_name_head. simpl.
    rewrite List.filter_app. simpl.
    destruct (row_has_key (repo_name repository') n'
                (schedule_row repository schedule)) eqn:Hk.
    + destruct Hne.
      exact (row_has_key_inj _ _ _ _ _ (schedule_row_has_key repository schedule) Hk).
    + by rewrite app_nil_r.
Qed.

(** X4: after a successful [add_schedule], [all_schedules] for the
    schedule's repository returns the schedules it returned before and
    the decoding of the new body, each once, in an order the storage
    does not fix; for a repository of another name it returns the
    schedules it returned before. *)
Theorem add_schedule_then_all_schedules (repository repository' : RepositoryDefinition)
  (schedule : Schedule) (st : Store) (before : list DagsterNamedTuple) :
  (∀ r, r ∈ ScheduleTable st →
        row_has_key (repo_name repository) (name schedule) r = false) →
  all_schedules (Some repository') st = Ok before →
  ∃ after,
    all_schedules (Some repository') (snd (add_schedule repository schedule st))
    = Ok after
    ∧ after ≡ₚ (if decide (repo_name repository = repo_name repository')
                then deserialize_json_to_dagster_namedtuple
                       (serialize_dagster_namedtuple (NT_Schedule schedule))
                     :: before
                else before).
Proof.
  intros Hfree. rewrite (add_schedule_free _ _ _ Hfree). simpl.
  rewrite !StorageFacts.all_schedules_repository. simpl.
  intros [= <-]. eexists. split; [reflexivity |].
  rewrite List.filter_app, !map_app. simpl.
  case_decide as Hrn.
  - rewrite bool_decide_eq_true_2; [| done]. simpl.
    by rewrite <- Permutation_cons_append.
  - rewrite bool_decide_eq_false_2; [| done]. simpl. by rewrite app_nil_r.
Qed.

(** *** Updating and deleting a schedule that is there *)

Lemma row_has_key_rewrite (a b rn sn sv bv : string) (r : ScheduleRow) :
  row_has_key a b (rewrite_schedule_row rn sn sv bv r) = row_has_key a b r.
Proof. unfold rewrite_schedule_row. by destruct (row_has_key rn sn r). Qed.

Lemma schedule_key_rewrite (rn sn sv bv : string) (r : ScheduleRow) :
  schedule_key (rewrite_schedule_row rn sn sv bv r) = schedule_key r.
Proof. unfold rewrite_schedule_row. by destruct (row_has_key rn sn r). Qed.

Lemma filter_rewrite_same (rn sn sv bv : string) (tbl : list ScheduleRow) :
  List.filter (row_has_key rn sn) (map (rewrite_schedule_row rn sn sv bv) tbl)
  = map (fun r => mkScheduleRow (repository_name r) (schedule_name r) sv bv)
        (List.filter (row_has_key rn sn) tbl).
Proof.
  induction tbl as [|r tbl IH]; simpl; [done |].
  rewrite row_has_key_rewrite.
  destruct (row_has_key rn sn r) eqn:Hr; [| done].
  simpl. rewrite IH. unfold rewrite_schedule_row. by rewrite Hr.
Qed.

Lemma filter_rewrite_other (a b rn sn sv bv : string) (tbl : list ScheduleRow) :
  (a, b) ≠ (rn, sn) →
  List.filter (row_has_key a b) (map (rewrite_schedule_row rn sn sv bv) tbl)
  = List.filter (row_has_key a b) tbl.
Proof.
  intros Hne. induction tbl as [|r tbl IH]; simpl; [done |].
  rewrite row_has_key_rewrite, IH.
  destruct (row_has_key a b r) eqn:Hab; [| done].
  f_equal. unfold rewrite_schedule_row.
  destruct (row_has_key rn sn r) eqn:Hr; [| done].
  destruct Hne. exact (row_has_key_inj _ _ _ _ _ Hr Hab).
Qed.

Lemma filter_delete_same (rn sn : string) (tbl : list ScheduleRow) :
  List.filter (row_has_key rn sn)
    (List.filter (fun r => negb (row_has_key rn sn r)) tbl) = [].
Proof.
  apply filter_none_iff. intros r Hr.
  apply list_elem_of_In, filter_In in Hr as [_ Hr].
  by apply negb_true_iff in Hr.
Qed.

Lemma filter_delete_other (a b rn sn : string) (tbl : list ScheduleRow) :
  (a, b) ≠ (rn, sn) →
  List.filter (row_has_key a b)
    (List.filter (fun r => negb (row_has_key rn sn r)) tbl)
  = List.filter (row_has_key a b) tbl.
Proof.
  intros Hne. induction tbl as [|r tbl IH]; simpl; [done |].
  destruct (row_has_key rn sn r) eqn:Hr; simpl.
  - rewrite IH. destruct (row_has_key a b r) eqn:Hab; [| done].
    destruct Hne. exact (row_has_key_inj _ _ _ _ _ Hr Hab).
  - by rewrite IH.
Qed.

Lemma filter_some_row {A : Type} (f : A → bool) (l : list A) (x : A) :
  x ∈ l → f x = true → ∃ y rest, List.filter f l = y :: rest.
Proof.
  intros Hin Hx. destruct (List.filter f l) as [|y rest] eqn:Hf; [| by eauto].
  pose proof (proj1 (filter_none_iff _ _) Hf x Hin) as Hfx. congruence.
Qed.

Lemma update_schedule_present_store (repository : RepositoryDefinition)
  (schedule : Schedule) (st : Store) (row : ScheduleRow) :
  row ∈ ScheduleTable st →
  row_has_key (repo_name repository) (name schedule) row = true →
  update_schedule repository schedule st
  = (Ok tt,
     mkStore
       (map (rewrite_schedule_row (repo_name repository) (name schedule)
               (ScheduleStatus_value (status schedule))
               (serialize_dagster_namedtuple (NT_Schedule schedule)))
            (ScheduleTable st))
       (ScheduleTickTable st) (tick_id_seq st)).
Proof.
  intros Hin Hrow. unfold update_schedule.
  rewrite get_schedule_by_name_head.
  destruct (filter_some_row _ _ _ Hin Hrow) as (y & rest & ->). simpl.
  do 2 f_equal. apply map_ext. intros r.
  unfold rewrite_schedule_row.
  by rewrite <- schedule_row_matches_key.
Qed.

Lemma delete_schedule_present_store (repository : RepositoryDefinition)
  (schedule : Schedule) (st : Store) (row : ScheduleRow) :
  row ∈ ScheduleTable st →
  row_has_key (repo_name repository) (name schedule) row = true →
  delete_schedule repository schedule st
  = (Ok tt,
     mkStore
       (List.filter
          (fun r => negb (row_has_key (repo_name repository) (name schedule) r))
          (ScheduleTable st))
       (ScheduleTickTable st) (tick_id_seq st)).
Proof.
  intros Hin Hrow. unfold delete_schedule.
  rewrite get_schedule_by_name_head.
  destruct (filter_some_row _ _ _ Hin Hrow) as (y & rest & ->). simpl.
  do 2 f_equal. apply filter_ext. intros r.
  by rewrite <- schedule_row_matches_key.
Qed.

(** X5: [update_schedule] on a schedule that has a row succeeds.  The
    rows keep their order and their keys and the Schedule Tick table is
    untouched; the schedule then reads back as the decoding of the new
    encoding, and every other (repository, schedule name) reads as
    before. *)
Theorem update_schedule_existing (repository : RepositoryDefinition)
  (schedule : Schedule) (st : Store) (row : ScheduleRow) :
  row ∈ ScheduleTable st →
  row_has_key (repo_name repository) (name schedule) row = true →
  fst (update_schedule repository schedule st) = Ok tt
  ∧ map schedule_key (ScheduleTable (snd (update_schedule repository schedule st)))
    = map schedule_key (ScheduleTable st)
  ∧ ScheduleTickTable (snd (update_schedule repository schedule st))
    = ScheduleTickTable st
  ∧ get_schedule_by_name repository (name schedule)
      (snd (update_schedule repository schedule st))
    = Ok (Some (deserialize_json_to_dagster_namedtuple
                  (serialize_dagster_namedtuple (NT_Schedule schedule))))
  ∧ ∀ repository' n',
      (repo_name repository', n') ≠ (repo_name repository, name schedule) →
      get_schedule_by_name repository' n'
        (snd (update_schedule repository schedule st))
      = get_schedule_by_name repository' n' st.
Proof.
  intros Hin Hrow.
  rewrite (update_schedule_present_store _ _ _ _ Hin Hrow). simpl.
  split; [done |]. split.
  { rewrite map_map. apply map_ext. intros r. apply schedule_key_rewrite. }
  split; [done |]. split.
  - rewrite get_schedule_by_name_head. simpl. rewrite filter_rewrite_same.
    by destruct (filter_some_row _ _ _ Hin Hrow) as (y & rest & ->).
  - intros repository' n' Hne. rewrite !get_schedule_by_name_head. simpl.
    by rewrite filter_rewrite_other.
Qed.

(** X6: [delete_schedule] on a schedule that has a row succeeds and
    removes every row with its key and no other row.  The schedule then
    reads as absent, every other (repository, schedule name) reads as
    before, and the Schedule Tick table, the ticks of the deleted
    schedule among them, is untouched. *)
Theorem delete_schedule_existing (repository : RepositoryDefinition)
  (schedule : Schedule) (st : Store) (row : ScheduleRow) :
  row ∈ ScheduleTable st →
  row_has_key (repo_name repository) (name schedule) row = true →
  fst (delete_schedule repository schedule st) = Ok tt
  ∧ ScheduleTable (snd (delete_schedule repository schedule st))
    = List.filter
        (fun r => negb (row_has_key (repo_name repository) (name schedule) r))
        (ScheduleTable st)
  ∧ ScheduleTickTable (snd (delete_schedule repository schedule st))
    = ScheduleTickTable st
  ∧ get_schedule_by_name repository (name schedule)
      (snd (delete_schedule repository schedule st)) = Ok None
  ∧ (∀ repository' n',
       (repo_name repository', n') ≠ (repo_name repository, name schedule) →
       get_schedule_by_name repository' n'
         (snd (delete_schedule repository schedule st))
       = get_schedule_by_name repository' n' st)
  ∧ ∀ repository' n',
      get_schedule_ticks_by_schedule repository' n'
        (snd (delete_schedule repository schedule st))
      = get_schedule_ticks_by_schedule repository' n' st.
Proof.
  intros Hin Hrow.
  rewrite (delete_schedule_present_store _ _ _ _ Hin Hrow). simpl.
  split; [done |]. split; [done |]. split; [done |]. split.
  - rewrite get_schedule_by_name_head. simpl. by rewrite filter_delete_same.
  - split; [| done].
    intros repository' n' Hne. rewrite !get_schedule_by_name_head. simpl.
    by rewrite filter_delete_other.
Qed.

Lemma update_delete_when_none (repository : RepositoryDefinition)
  (schedule : Schedule) (st : Store) :
  get_schedule_by_name repository (name schedule) st = Ok None →
  update_schedule repository schedule st
  = (Raise (not_present_error repository schedule), st)
  ∧ delete_schedule repository schedule st
    = (Raise (not_present_error repository schedule), st).
Proof.
  intros Hnone. unfold update_schedule, delete_schedule. by rewrite Hnone.
Qed.

(** X7: once [delete_schedule] has succeeded for a schedule, a second
    [delete_schedule] and an [update_schedule] of it raise the "not
    present" error without changing the store, and [add_schedule] of it
    succeeds. *)
Theorem delete_schedule_then (repository : RepositoryDefinition)
  (schedule : Schedule) (st : Store) (row : ScheduleRow) :
  row ∈ ScheduleTable st →
  row_has_key (repo_name repository) (name schedule) row = true →
  delete_schedule repository schedule (snd (delete_schedule repository schedule st))
  = (Raise (not_present_error repository schedule),
     snd (delete_schedule repository schedule st))
  ∧ update_schedule repository schedule (snd (delete_schedule repository schedule st))
    = (Raise (not_present_error repository schedule),
       snd (delete_schedule repository schedule st))
  ∧ fst (add_schedule repository schedule
           (snd (delete_schedule repository schedule st)))
    = Ok schedule.
Proof.
  intros Hin Hrow.
  rewrite (delete_schedule_present_store _ _ _ _ Hin Hrow). simpl.
  assert (List.filter (row_has_key (repo_name repository) (name schedule))
            (List.filter
               (fun r => negb (row_has_key (repo_name repository) (name schedule) r))
               (ScheduleTable st)) = []) as Hgone by apply filter_delete_same.
  split; [| split].
  - apply update_delete_when_none.
    rewrite get_schedule_by_name_head. simpl. by rewrite Hgone.
  - apply update_delete_when_none.
    rewrite get_schedule_by_name_head. simpl. by rewrite Hgone.
  - rewrite add_schedule_free; [done |]. simpl. by apply filter_none_iff.
Qed.

(** *** The uniqueness of keys *)

Lemma NoDup_map_filter {A B : Type} (f : A → B) (p : A → bool) (l : list A) :
  NoDup (map f l) → NoDup (map f (List.filter p l)).
Proof.
  induction l as [|x l IH]; simpl; [done |].
  intros Hnd. apply NoDup_cons in Hnd as [Hx Hnd].
  destruct (p x); simpl; [| by apply IH].
  apply NoDup_cons. split; [| by apply IH].
  intros Hin. apply Hx.
  apply list_elem_of_In, in_map_iff in Hin as (y & Hy & Hin).
  apply filter_In in Hin as [Hin _].
  apply list_elem_of_In, in_map_iff. by exists y.
Qed.

Lemma row_has_key_schedule_key (rn sn : string) (r : ScheduleRow) :
  row_has_key rn sn r = true ↔ schedule_key r = (rn, sn).
Proof.
  unfold row_has_key, schedule_key.
  rewrite andb_true_iff, !bool_decide_eq_true. split.
  - by intros [-> ->].
  - by intros [= -> ->].
Qed.

(** X8: every writing operation of the storage keeps the keys of the
    Schedule table unique: if no two rows share (repository name,
    schedule name) before [add_schedule], [update_schedule],
    [delete_schedule], [wipe], [create_schedule_tick] or
    [update_schedule_tick], none do afterwards, whether the call
    succeeds or raises. *)
Theorem unique_keys_preserved (st : Store) :
  unique_keys st →
  (∀ repository schedule, unique_keys (snd (add_schedule repository schedule st)))
  ∧ (∀ repository schedule, unique_keys (snd (update_schedule repository schedule st)))
  ∧ (∀ repository schedule, unique_keys (snd (delete_schedule repository schedule st)))
  ∧ unique_keys (snd (wipe st))
  ∧ (∀ repository d, unique_keys (snd (create_schedule_tick repository d st)))
  ∧ (∀ repository tick, unique_keys (snd (update_schedule_tick repository tick st))).
Proof.
  intros Hu. unfold unique_keys in *. repeat split.
  - intros repository schedule.
    destruct (key_taken (ScheduleTable st) (schedule_row repository schedule)) eqn:Hk.
    + assert (¬ (∀ r, r ∈ ScheduleTable st →
                      row_has_key (repo_name repository) (name schedule) r = false))
        as Htaken.
      { intros Hfree.
        apply (key_taken_false _ (schedule_row repository schedule)) in Hfree.
        congruence. }
      by rewrite (proj2 (add_schedule_taken _ _ _ Htaken)).
    + pose proof (proj1 (key_taken_false _ _) Hk) as Hfree. simpl in Hfree.
      rewrite (add_schedule_free _ _ _ Hfree). simpl.
      rewrite map_app. apply NoDup_app. split; [done |]. split.
      * intros k Hin Hk'. apply list_elem_of_In, in_map_iff in Hin as (r & <- & Hr).
        apply list_elem_of_In in Hr. simpl in Hk'.
        apply list_elem_of_singleton in Hk'.
        specialize (Hfree r Hr).
        assert (row_has_key (repo_name repository) (name schedule) r = true) as Hyes
          by (by apply row_has_key_schedule_key).
        congruence.
      * simpl. apply NoDup_singleton.
  - intros repository schedule. unfold update_schedule.
    rewrite get_schedule_by_name_head.
    destruct (List.filter _ _) as [|y rest]; simpl; [done |].
    rewrite map_map.
    erewrite map_ext; [exact Hu |].
    intros r. simpl. by case_match.
  - intros repository schedule. unfold delete_schedule.
    rewrite get_schedule_by_name_head.
    destruct (List.filter _ _) as [|y rest]; simpl; [done |].
    by apply NoDup_map_filter.
  - unfold wipe. simpl. by apply NoDup_map_filter.
  - done.
  - done.
Qed.

(** X9: what [get_schedule_by_name] finds for a repository is among
    the schedules [all_schedules] returns for that repository. *)
Theorem get_schedule_by_name_in_all_schedules (repository : RepositoryDefinition)
  (n : string) (st : Store) (v : DagsterNamedTuple) :
  get_schedule_by_name repository n st = Ok (Some v) →
  ∃ vs, all_schedules (Some repository) st = Ok vs ∧ v ∈ vs.
Proof.
  rewrite get_schedule_by_name_head, StorageFacts.all_schedules_repository.
  intros Hget. eexists. split; [reflexivity |].
  destruct (List.filter (row_has_key (repo_name repository) n) (ScheduleTable st))
    as [|row rest] eqn:Hf; [discriminate Hget |].
  simpl in Hget. injection Hget as <-.
  assert (In row (List.filter (row_has_key (repo_name repository) n) (ScheduleTable st)))
    as Hrow by (rewrite Hf; by left).
  apply filter_In in Hrow as [Hin Hkey].
  apply list_elem_of_In, in_map, in_map, filter_In. split; [done |].
  apply andb_prop in Hkey as [Hrn _]. exact Hrn.
Qed.

(** X10: after [wipe] every schedule can be added: [add_schedule]
    succeeds whatever the store held, the schedule reads back as the
    decoding of its encoding, and it is the only schedule
    [all_schedules] returns for its repository. *)
Theorem wipe_then_add_schedule (repository : RepositoryDefinition)
  (schedule : Schedule) (st : Store) :
  fst (add_schedule repository schedule (snd (wipe st))) = Ok schedule
  ∧ get_schedule_by_name repository (name schedule)
      (snd (add_schedule repository schedule (snd (wipe st))))
    = Ok (Some (deserialize_json_to_dagster_namedtuple
                  (serialize_dagster_namedtuple (NT_Schedule schedule))))
  ∧ all_schedules (Some repository)
      (snd (add_schedule repository schedule (snd (wipe st))))
    = Ok [deserialize_json_to_dagster_namedtuple
            (serialize_dagster_namedtuple (NT_Schedule schedule))].
Proof.
  rewrite StorageFacts.wipe_store. cbn [snd].
  rewrite add_schedule_free; [| intros r Hr; by apply elem_of_nil in Hr]. simpl.
  split; [done |]. split.
  - rewrite get_schedule_by_name_head. simpl. by rewrite schedule_row_has_key.
  - rewrite StorageFacts.all_schedules_repository. simpl.
    by rewrite bool_decide_eq_true_2.
Qed.

(** *** Ticks *)





Lemma create_schedule_tick_store (repository : RepositoryDefinition)
  (d : ScheduleTickData) (st : Store) :
  create_schedule_tick repository d st
  = (Ok (mkScheduleTick (tick_id_seq st) d),
     mkStore (ScheduleTable st)
       (ScheduleTickTable st ++ [tick_row (tick_id_seq st) repository d])
       (tick_id_seq st + 1)).
Proof. reflexivity. Qed.




Lemma update_schedule_tick_store (repository : RepositoryDefinition)
  (tick : ScheduleTick) (st : Store) :
  update_schedule_tick repository tick st
  = (Ok tick,
     mkStore (ScheduleTable st)
       (map (fun r =>
               if bool_decide (id r = tick_id tick)
               then mkScheduleTickRow (id r) (tick_repository_name r)
                      (tick_schedule_name r)
                      (ScheduleTickStatus_value (tick_status tick))
                      (timestamp r)
                      (serialize_dagster_namedtuple
                         (NT_ScheduleTickData (schedule_tick_data tick)))
               else r)
            (ScheduleTickTable st))
       (tick_id_seq st)).
Proof.
  unfold update_schedule_tick, conn_execute. simpl. do 2 f_equal.
  apply map_ext. intros r. unfold tick_row_matches. simpl.
  by rewrite andb_true_r.
Qed.


(** X14: tick ids stay unique.  If every id of the Schedule Tick table
    lies below the next id to assign, the id [create_schedule_tick]
    returns is the id of no row already there, and the same bound holds
    again after every writing operation of the storage. *)
Theorem tick_ids_below_seq_preserved (st : Store) :
  tick_ids_below_seq st →
  (∀ repository d,
     (∀ t, fst (create_schedule_tick repository d st) = Ok t →
           ∀ r, r ∈ ScheduleTickTable st → id r ≠ tick_id t)
     ∧ tick_ids_below_seq (snd (create_schedule_tick repository d st)))
  ∧ (∀ repository tick,
       tick_ids_below_seq (snd (update_schedule_tick repository tick st)))
  ∧ (∀ repository schedule, tick_ids_below_seq (snd (add_schedule repository schedule st)))
  ∧ (∀ repository schedule,
       tick_ids_below_seq (snd (update_schedule repository schedule st)))
  ∧ (∀ repository schedule,
       tick_ids_below_seq (snd (delete_schedule repository schedule st)))
  ∧ tick_ids_below_seq (snd (wipe st)).
Proof.
  intros Hids. unfold tick_ids_below_seq in *.
  split; [| split; [| split; [| split; [| split]]]].
  - intros repository d. rewrite create_schedule_tick_store. cbn [fst snd]. split.
    + intros t [= <-] r Hr. rewrite Forall_forall in Hids.
      specialize (Hids r Hr). simpl. lia.
    + simpl. apply Forall_app. split.
      * eapply Forall_impl; [exact Hids |]. intros r Hr. simpl in Hr. lia.
      * constructor; [simpl; lia | constructor].
  - intros repository tick. rewrite update_schedule_tick_store. simpl.
    change (Forall (fun r => id r < tick_id_seq st)
              ((fun r =>
                  if bool_decide (id r = tick_id tick)
                  then mkScheduleTickRow (id r) (tick_repository_name r)
                         (tick_schedule_name r)
                         (ScheduleTickStatus_value (tick_status tick))
                         (timestamp r)
                         (serialize_dagster_namedtuple
                            (NT_ScheduleTickData (schedule_tick_data tick)))
                  else r) <$> ScheduleTickTable st)).
    apply Forall_fmap. eapply Forall_impl; [exact Hids |].
    intros r Hr. simpl. by case_bool_decide.
  - intros repository schedule. unfold add_schedule, conn_execute.
    by destruct (key_taken _ _).
  - intros repository schedule. unfold update_schedule.
    rewrite get_schedule_by_name_head.
    by destruct (List.filter _ _).
  - intros repository schedule. unfold delete_schedule.
    rewrite get_schedule_by_name_head.
    by destruct (List.filter _ _).
  - done.
Qed.

End WithSerdes.

(** *** The theorems on sample data *)

Section OnSamples.

Import Samples MoreSamples.

#[local] Existing Instance toy_serdes.

Lemma store1_daily_free_of_weekly :
  ∀ r, r ∈ ScheduleTable store1 →
       row_has_key (repo_name repo) (name weekly) r = false.
Proof.
  intros r Hr. apply list_elem_of_In in Hr. simpl in Hr.
  destruct Hr as [<- | [<- | []]]; reflexivity.
Defined.

Lemma store1_has_daily :
  mkScheduleRow "repo" "daily" "RUNNING" (toy_serialize (NT_Schedule daily))
  ∈ ScheduleTable store1.
Proof. by left. Defined.

Lemma add_schedule_then_get_witness :
  (∀ r, r ∈ ScheduleTable store1 →
        row_has_key (repo_name repo) (name weekly) r = false)
  ∧ get_schedule_by_name repo "weekly" (snd (add_schedule repo weekly store1))
    = Ok (Some (NT_Schedule weekly))
  ∧ get_schedule_by_name repo "daily" (snd (add_schedule repo weekly store1))
    = get_schedule_by_name repo "daily" store1.
Proof.
  pose proof (add_schedule_then_get repo weekly store1 store1_daily_free_of_weekly)
    as [Hown Hframe].
  split; [exact store1_daily_free_of_weekly |]. split; [exact Hown |].
  apply Hframe. discriminate.
Defined.

Lemma add_schedule_then_all_schedules_witness :
  (∀ r, r ∈ ScheduleTable store1 →
        row_has_key (repo_name repo) (name weekly) r = false)
  ∧ all_schedules (Some repo) store1 = Ok [NT_Schedule daily]
  ∧ ∃ after,
      all_schedules (Some repo) (snd (add_schedule repo weekly store1)) = Ok after
      ∧ after ≡ₚ [NT_Schedule weekly; NT_Schedule daily].
Proof.
  split; [exact store1_daily_free_of_weekly |]. split; [reflexivity |].
  exact (add_schedule_then_all_schedules repo repo weekly store1 [NT_Schedule daily]
           store1_daily_free_of_weekly eq_refl).
Defined.

Lemma update_schedule_existing_witness :
  mkScheduleRow "repo" "daily" "RUNNING" (toy_serialize (NT_Schedule daily))
  ∈ ScheduleTable store1
  ∧ row_has_key (repo_name repo) "daily"
    (mkScheduleRow "repo" "daily" "RUNNING" (toy_serialize (NT_Schedule daily))) = true
  ∧ fst (update_schedule repo (mkSchedule "daily" STOPPED "") store1) = Ok tt
  ∧ get_schedule_by_name repo "daily"
      (snd (update_schedule repo (mkSchedule "daily" STOPPED "") store1))
    = Ok (Some (NT_Schedule (mkSchedule "daily" STOPPED ""))).
Proof.
  pose proof (update_schedule_existing repo (mkSchedule "daily" STOPPED "") store1 _
                store1_has_daily eq_refl) as (Hok & _ & _ & Hget & _).
  split; [exact store1_has_daily |]. split; [reflexivity |]. split; [exact Hok | exact Hget].
Defined.

Lemma delete_schedule_existing_witness :
  mkScheduleRow "repo" "daily" "RUNNING" (toy_serialize (NT_Schedule daily))
  ∈ ScheduleTable store1
  ∧ row_has_key (repo_name repo) (name daily)
    (mkScheduleRow "repo" "daily" "RUNNING" (toy_serialize (NT_Schedule daily))) = true
  ∧ fst (delete_schedule repo daily store1) = Ok tt
  ∧ get_schedule_by_name repo "daily" (snd (delete_schedule repo daily store1)) = Ok None
  ∧ get_schedule_ticks_by_schedule repo "daily" (snd (delete_schedule repo daily store1))
    = get_schedule_ticks_by_schedule repo "daily" store1.
Proof.
  pose proof (delete_schedule_existing repo daily store1 _ store1_has_daily eq_refl)
    as (Hok & _ & _ & Hget & _ & Hticks).
  split; [exact store1_has_daily |]. split; [reflexivity |]. split; [exact Hok |]. split; [exact Hget |].
  apply Hticks.
Defined.

Lemma delete_schedule_then_witness :
  mkScheduleRow "repo" "daily" "RUNNING" (toy_serialize (NT_Schedule daily))
  ∈ ScheduleTable store1
  ∧ row_has_key (repo_name repo) (name daily)
    (mkScheduleRow "repo" "daily" "RUNNING" (toy_serialize (NT_Schedule daily))) = true
  ∧ raised_class
      (fst (delete_schedule repo daily (snd (delete_schedule repo daily store1))))
    = Some DagsterInvariantViolationError
  ∧ fst (add_schedule repo daily (snd (delete_schedule repo daily store1))) = Ok daily.
Proof.
  pose proof (delete_schedule_then repo daily store1 _ store1_has_daily eq_refl)
    as (Hdel & _ & Hadd).
  split; [exact store1_has_daily |]. split; [reflexivity |]. split; [| exact Hadd].
  rewrite Hdel. reflexivity.
Defined.

Lemma store1_unique_keys : unique_keys store1.
Proof.
  unfold unique_keys. simpl.
  apply NoDup_cons. split.
  - intros Hin. apply list_elem_of_singleton in Hin. discriminate Hin.
  - apply NoDup_singleton.
Defined.

Lemma unique_keys_preserved_witness :
  unique_keys store1
  ∧ unique_keys (snd (add_schedule repo weekly store1))
  ∧ unique_keys (snd (delete_schedule repo daily store1)).
Proof.
  pose proof (unique_keys_preserved store1 store1_unique_keys)
    as (Hadd & _ & Hdel & _).
  split; [exact store1_unique_keys |]. split; [apply Hadd | apply Hdel].
Defined.

Lemma get_schedule_by_name_in_all_schedules_witness :
  get_schedule_by_name repo "daily" store1 = Ok (Some (NT_Schedule daily))
  ∧ ∃ vs, all_schedules (Some repo) store1 = Ok vs ∧ NT_Schedule daily ∈ vs.
Proof.
  split; [reflexivity |].
  exact (get_schedule_by_name_in_all_schedules repo "daily" store1 _ eq_refl).
Defined.



Lemma store1_tick_ids_below_seq : tick_ids_below_seq store1.
Proof.
  unfold tick_ids_below_seq. simpl.
  constructor; [reflexivity |]. constructor; [reflexivity | constructor].
Defined.


Lemma tick_ids_below_seq_preserved_witness :
  tick_ids_below_seq store1
  ∧ tick_ids_below_seq (snd (create_schedule_tick repo daily_started store1))
  ∧ tick_ids_below_seq (snd (wipe store1)).
Proof.
  pose proof (tick_ids_below_seq_preserved store1 store1_tick_ids_below_seq)
    as (Hcreate & _ & _ & _ & _ & Hwipe).
  split; [exact store1_tick_ids_below_seq |].
  split; [apply (Hcreate repo daily_started) | exact Hwipe].
Defined.

End OnSamples.

End StorageMore.

(** ** Looking up what the builder recorded *)

Module SnapMore.
Import Snap SnapSpec.

(** What a key of the dict of invocations holds after the stores of
    [l] on top of [d]. *)
Lemma foldl_insert_lookup (n : string) (l : list SolidInvocationSnap)
  (d : gmap string SolidInvocationSnap) :
  match foldl (fun d si => <[solid_name si := si]> d) d l !! n with
  | Some si => (si ∈ l ∧ solid_name si = n) ∨ d !! n = Some si
  | None => d !! n = None ∧ ∀ si, si ∈ l → solid_name si ≠ n
  end.
Proof.
  revert d. induction l as [|x l IH]; intros d; simpl.
  - destruct (d !! n) as [si|] eqn:Hd.
    + by right.
    + split; [done |]. intros si Hsi. by apply elem_of_nil in Hsi.
  - specialize (IH (<[solid_name x := x]> d)).
    destruct (foldl _ _ l !! n) as [si|].
    + destruct IH as [[Hin Hn] | Hd].
      * left. split; [by right | done].
      * destruct (decide (solid_name x = n)) as [Hx | Hx].
        -- rewrite Hx, lookup_insert_eq in Hd. injection Hd as <-.
           left. split; [by left | done].
        -- rewrite lookup_insert_ne in Hd; [| done]. by right.
    + destruct IH as [Hd Hall].
      destruct (decide (solid_name x = n)) as [Hx | Hx].
      * by rewrite Hx, lookup_insert_eq in Hd.
      * rewrite lookup_insert_ne in Hd; [| done]. split; [done |].
        intros si Hsi. apply elem_of_cons in Hsi as [-> | Hsi]; [done | by apply Hall].
Qed.

Lemma dict_of_invocations_Some (l : list SolidInvocationSnap) (n : string)
  (si : SolidInvocationSnap) :
  dict_of_invocations l !! n = Some si → si ∈ l ∧ solid_name si = n.
Proof.
  intros Hl. pose proof (foldl_insert_lookup n l ∅) as Hf.
  unfold dict_of_invocations in Hl. rewrite Hl in Hf.
  destruct Hf as [Hf | Hf]; [done |]. by rewrite lookup_empty in Hf.
Qed.

Lemma dict_of_invocations_None (l : list SolidInvocationSnap) (n : string) :
  dict_of_invocations l !! n = None ↔ ∀ si, si ∈ l → solid_name si ≠ n.
Proof.
  pose proof (foldl_insert_lookup n l ∅) as Hf.
  unfold dict_of_invocations. split.
  - intros Hl. rewrite Hl in Hf. by destruct Hf.
  - intros Hall. destruct (foldl _ _ l !! n) as [si|]; [| done].
    destruct Hf as [[Hin Hn] | Hf]; [by destruct (Hall si Hin) |].
    by rewrite lookup_empty in Hf.
Qed.

Lemma dict_of_invocations_NoDup (l : list SolidInvocationSnap)
  (si : SolidInvocationSnap) :
  NoDup (map solid_name l) → si ∈ l →
  dict_of_invocations l !! solid_name si = Some si.
Proof.
  intros Hnd Hin.
  apply list_elem_of_split in Hin as (l1 & l2 & ->).
  apply SnapFacts.dict_of_invocations_last.
  rewrite map_app in Hnd. apply NoDup_app in Hnd as (_ & _ & Hnd).
  simpl in Hnd. apply NoDup_cons in Hnd as [Hnotin _].
  apply Forall_forall. intros s Hs Heq. apply Hnotin.
  rewrite <- Heq. apply list_elem_of_In, in_map. by apply list_elem_of_In.
Qed.

(** X15: an index answers [get_invocation] only with invocations of
    the snapshot it was built from, under their own name, and raises
    [KeyError] exactly for the names no invocation of the snapshot
    carries. *)
Theorem get_invocation_of_snapshot (snap : DependencyStructureSnapshot)
  (idx : DependencyStructureSnapshotIndex) (n : string) :
  DependencyStructureSnapshotIndex_init snap = Ok idx →
  (∀ si, get_invocation idx n = Ok si →
         si ∈ solid_invocation_snaps snap ∧ solid_name si = n)
  ∧ (get_invocation idx n = Raise (mk_exn KeyError n None)
     ↔ ∀ si, si ∈ solid_invocation_snaps snap → solid_name si ≠ n)
  ∧ (is_ok (get_invocation idx n) = true
     ↔ ∃ si, si ∈ solid_invocation_snaps snap ∧ solid_name si = n).
Proof.
  intros [= <-]. unfold get_invocation. simpl.
  destruct (dict_of_invocations (solid_invocation_snaps snap) !! n) as [si|] eqn:Hd.
  - apply dict_of_invocations_Some in Hd as Hsi. split; [| split].
    + by intros si' [= <-].
    + split; [done |]. intros Hall. apply dict_of_invocations_None in Hall. congruence.
    + split; [| done]. intros _. by exists si.
  - pose proof (proj1 (dict_of_invocations_None _ _) Hd) as Hall. split; [| split].
    + done.
    + done.
    + split; [done |]. intros (si & Hin & Hn). by destruct (Hall si Hin).
Qed.

(** X16: over a snapshot whose invocations have pairwise different
    names, the index answers [get_invocation] for the name of every
    invocation with that invocation. *)
Theorem get_invocation_unique_names (snap : DependencyStructureSnapshot)
  (idx : DependencyStructureSnapshotIndex) (si : SolidInvocationSnap) :
  NoDup (map solid_name (solid_invocation_snaps snap)) →
  DependencyStructureSnapshotIndex_init snap = Ok idx →
  si ∈ solid_invocation_snaps snap →
  get_invocation idx (solid_name si) = Ok si.
Proof.
  intros Hnd [= <-] Hin. unfold get_invocation. simpl.
  by rewrite dict_of_invocations_NoDup.
Qed.

(** X17: from the live graph to the index.  For a graph whose solids
    have pairwise different names, the index over the snapshot the
    builder returns answers, for every solid of the graph, with the
    invocation built from that solid, and resolves each input the
    graph's mapping lists for it to the producers listed under the
    first item of that input name, as (solid name, output name) in
    the listed order. *)
Theorem index_of_built_snapshot (g : IContainSolids) (solid : Solid) :
  NoDup (map name (solids g)) →
  solid ∈ solids g →
  ∃ idx,
    DependencyStructureSnapshotIndex_init
      (build_dep_structure_snapshot_from_icontains_solids g) = Ok idx
    ∧ get_invocation idx (name solid) = Ok (solid_invocation_snap g solid)
    ∧ ∀ pre ih ohs post,
        _upstream_outputs g solid = pre ++ (ih, ohs) :: post →
        Forall (fun item => input_def_name (input_def (fst item))
                            ≠ input_def_name (input_def ih)) pre →
        get_upstream_outputs idx (name solid) (input_def_name (input_def ih))
        = Ok (map output_handle_snap ohs).
Proof.
  intros Hnd Hin. eexists. split; [reflexivity |].
  assert (dict_of_invocations (map (solid_invocation_snap g) (solids g))
            !! name solid = Some (solid_invocation_snap g solid)) as Hd.
  { apply (dict_of_invocations_NoDup _ (solid_invocation_snap g solid)).
    - by rewrite map_map.
    - apply list_elem_of_In, in_map. by apply list_elem_of_In. }
  split.
  - unfold get_invocation. simpl. by rewrite Hd.
  - intros pre ih ohs post Hitems Hpre.
    apply SnapFacts.get_upstream_outputs_Ok.
    exists (solid_invocation_snap g solid), (input_dependency_snap (ih, ohs)).
    split; [exact Hd |]. split; [| done].
    exists (map input_dependency_snap pre), (map input_dependency_snap post).
    split.
    { unfold solid_invocation_snap. simpl. rewrite Hitems, map_app. done. }
    split; [done |].
    apply Forall_forall. intros d Hd'.
    apply list_elem_of_In, in_map_iff in Hd' as ([ih' ohs'] & <- & Hitem).
    rewrite Forall_forall in Hpre.
    apply (Hpre (ih', ohs')). by apply list_elem_of_In.
Qed.

(** X18: the errors of the accessors.  [get_upstream_outputs] and
    [get_upstream_output] raise [KeyError] exactly when the node is not
    in the index; for a node of the index every failure is a
    [CheckError]; and the read of [outputs[0]] in [get_upstream_output]
    never raises [IndexError]. *)
Theorem accessor_errors (self : DependencyStructureSnapshotIndex) (sn i : string) :
  (raised_class (get_upstream_outputs self sn i) = Some KeyError
   ↔ _invocations_dict self !! sn = None)
  ∧ (raised_class (get_upstream_output self sn i) = Some KeyError
     ↔ _invocations_dict self !! sn = None)
  ∧ (is_Some (_invocations_dict self !! sn) →
     is_ok (get_upstream_outputs self sn i) = false →
     get_upstream_outputs self sn i
     = Raise (mk_exn CheckError ("Input " ++ i ++ " not found for solid " ++ sn) None))
  ∧ (is_Some (_invocations_dict self !! sn) →
     is_ok (get_upstream_output self sn i) = false →
     raised_class (get_upstream_output self sn i) = Some CheckError)
  ∧ raised_class (get_upstream_output self sn i) ≠ Some IndexError.
Proof.
  unfold get_upstream_output, get_upstream_outputs, get_invocation.
  destruct (_invocations_dict self !! sn) as [inv|]; simpl.
  - destruct (scan_input_deps i (input_dep_snaps inv)) as [outs|]; simpl.
    + destruct outs as [|x [|y outs]]; simpl; repeat split; try done.
    + repeat split; try done.
  - repeat split; try done. all: by intros [? ?].
Qed.

(** X19: the builder keeps a closed graph closed.  If every producer
    the graph lists is a solid of the graph, every output handle of the
    snapshot names a node the index over that snapshot can look up. *)
Theorem built_snapshot_closed (g : IContainSolids) :
  (∀ solid item oh,
     solid ∈ solids g → item ∈ _upstream_outputs g solid → oh ∈ snd item →
     oh_solid oh ∈ solids g) →
  ∃ idx,
    DependencyStructureSnapshotIndex_init
      (build_dep_structure_snapshot_from_icontains_solids g) = Ok idx
    ∧ ∀ inv d o,
        inv ∈ solid_invocation_snaps
                (build_dep_structure_snapshot_from_icontains_solids g) →
        d ∈ input_dep_snaps inv →
        o ∈ prev_output_snaps d →
        is_ok (get_invocation idx (oh_solid_name o)) = true.
Proof.
  intros Hclosed. eexists. split; [reflexivity |].
  intros inv d o Hinv Hd Ho.
  unfold build_dep_structure_snapshot_from_icontains_solids in Hinv. simpl in Hinv.
  apply list_elem_of_In, in_map_iff in Hinv as (solid & <- & Hsolid).
  unfold solid_invocation_snap in Hd. simpl in Hd.
  apply list_elem_of_In, in_map_iff in Hd as ([ih ohs] & <- & Hitem).
  simpl in Ho.
  apply list_elem_of_In, in_map_iff in Ho as (oh & <- & Hoh).
  apply list_elem_of_In in Hsolid, Hitem, Hoh.
  specialize (Hclosed solid (ih, ohs) oh Hsolid Hitem Hoh).
  unfold get_invocation. simpl.
  destruct (dict_of_invocations _ !! _) eqn:Hdict; [done |].
  pose proof (proj1 (dict_of_invocations_None _ _) Hdict
                (solid_invocation_snap g (oh_solid oh))) as Hnone.
  destruct Hnone; [| done].
  apply list_elem_of_In, in_map. by apply list_elem_of_In.
Qed.

(** *** The theorems on sample data *)

Import Samples MoreSamples.

Lemma live_graph_names_NoDup : NoDup (map name (solids (live_graph None))).
Proof.
  simpl. apply NoDup_cons. split.
  { intros Hin. apply list_elem_of_In in Hin. simpl in Hin.
    destruct Hin as [Hin | [Hin | []]]; discriminate Hin. }
  apply NoDup_cons. split.
  { intros Hin. apply list_elem_of_singleton in Hin. discriminate Hin. }
  apply NoDup_singleton.
Defined.

Lemma snapshot_unique_NoDup :
  NoDup (map solid_name (solid_invocation_snaps snapshot_unique)).
Proof.
  simpl. apply NoDup_cons. split.
  { intros Hin. apply list_elem_of_singleton in Hin. discriminate Hin. }
  apply NoDup_singleton.
Defined.

Lemma get_invocation_of_snapshot_witness :
  DependencyStructureSnapshotIndex_init snapshot_dup = Ok index_dup
  ∧ (get_invocation index_dup "c" = Raise (mk_exn KeyError "c" None)
     ↔ ∀ si, si ∈ solid_invocation_snaps snapshot_dup → solid_name si ≠ "c")
  ∧ (is_ok (get_invocation index_dup "a") = true
     ↔ ∃ si, si ∈ solid_invocation_snaps snapshot_dup ∧ solid_name si = "a").
Proof.
  pose proof (get_invocation_of_snapshot snapshot_dup index_dup "c" eq_refl)
    as (_ & Hc & _).
  pose proof (get_invocation_of_snapshot snapshot_dup index_dup "a" eq_refl)
    as (_ & _ & Ha).
  split; [reflexivity |]. split; [exact Hc | exact Ha].
Defined.

Lemma get_invocation_unique_names_witness :
  NoDup (map solid_name (solid_invocation_snaps snapshot_unique))
  ∧ DependencyStructureSnapshotIndex_init snapshot_unique = Ok index_unique
  ∧ inv_b ∈ solid_invocation_snaps snapshot_unique
  ∧ get_invocation index_unique "b" = Ok inv_b.
Proof.
  assert (inv_b ∈ solid_invocation_snaps snapshot_unique) as Hin by (right; left).
  split; [exact snapshot_unique_NoDup |]. split; [reflexivity |].
  split; [exact Hin |].
  exact (get_invocation_unique_names snapshot_unique index_unique inv_b
           snapshot_unique_NoDup eq_refl Hin).
Defined.

Lemma index_of_built_snapshot_witness :
  NoDup (map name (solids (live_graph None)))
  ∧ live_solid None "b" "join" ∈ solids (live_graph None)
  ∧ ∃ idx,
      DependencyStructureSnapshotIndex_init
        (build_dep_structure_snapshot_from_icontains_solids (live_graph None)) = Ok idx
      ∧ get_upstream_outputs idx "b" "y"
        = Ok [mkOutputHandleSnap "a" "result"; mkOutputHandleSnap "c" "result"].
Proof.
  assert (live_solid None "b" "join" ∈ solids (live_graph None)) as Hin
    by (right; left).
  split; [exact live_graph_names_NoDup |]. split; [exact Hin |].
  destruct (index_of_built_snapshot (live_graph None) (live_solid None "b" "join")
              live_graph_names_NoDup Hin) as (idx & Hidx & _ & Hup).
  exists idx. split; [exact Hidx |].
  refine (Hup [_] _ _ [] eq_refl _).
  constructor; [discriminate | constructor].
Defined.

Lemma live_graph_closed :
  ∀ solid item oh,
    solid ∈ solids (live_graph None) →
    item ∈ _upstream_outputs (live_graph None) solid →
    oh ∈ snd item →
    oh_solid oh ∈ solids (live_graph None).
Proof.
  intros solid item oh Hs Hi Ho. simpl in Hs.
  apply list_elem_of_In in Hi, Ho. apply list_elem_of_In.
  rewrite !elem_of_cons, elem_of_nil in Hs.
  destruct Hs as [-> | [-> | [-> | []]]]; vm_compute in Hi;
    repeat (destruct Hi as [<- | Hi]); try (by destruct Hi);
    vm_compute in Ho;
    repeat (destruct Ho as [<- | Ho]); try (by destruct Ho);
    simpl; tauto.
Defined.

Lemma built_snapshot_closed_witness :
  (∀ solid item oh,
     solid ∈ solids (live_graph None) →
     item ∈ _upstream_outputs (live_graph None) solid →
     oh ∈ snd item →
     oh_solid oh ∈ solids (live_graph None))
  ∧ ∃ idx,
      DependencyStructureSnapshotIndex_init
        (build_dep_structure_snapshot_from_icontains_solids (live_graph None)) = Ok idx
      ∧ ∀ inv d o,
          inv ∈ solid_invocation_snaps
                  (build_dep_structure_snapshot_from_icontains_solids (live_graph None)) →
          d ∈ input_dep_snaps inv →
          o ∈ prev_output_snaps d →
          is_ok (get_invocation idx (oh_solid_name o)) = true.
Proof.
  split; [exact live_graph_closed |].
  exact (built_snapshot_closed (live_graph None) live_graph_closed).
Defined.

End SnapMore.

(** ** Facts about node definition snapshots *)

Module SolidFacts.
Import SolidSnap.

Section WithConfigTypes.

Context `{ConfigTypes}.
Context `{SchemaBuilders}.

Lemma find_first {A : Type} (f : A → bool) (pre post : list A) (x : A) :
  f x = true → Forall (fun y => f y = false) pre →
  List.find f (pre ++ x :: post) = Some x.
Proof.
  intros Hx Hpre. induction Hpre as [|y pre Hy _ IH]; simpl.
  - by rewrite Hx.
  - by rewrite Hy.
Qed.

Lemma atomic_names (defs : list ISolidDefinition) :
  map sds_name
    (omap (fun d => match d with
                    | Atomic sd => Some (build_solid_def_snap sd)
                    | Composite _ => None
                    end) defs)
  = map isd_name (List.filter (fun d => negb (is_composite d)) defs).
Proof.
  induction defs as [|[sd|csd] defs IH]; simpl; [done | | done].
  by rewrite <- IH.
Qed.

Lemma composite_names (defs : list ISolidDefinition) :
  map csds_name
    (omap (fun d => match d with
                    | Composite csd => Some (build_composite_solid_def_snap csd)
                    | Atomic _ => None
                    end) defs)
  = map isd_name (List.filter is_composite defs).
Proof.
  induction defs as [|[sd|csd] defs IH]; simpl; [done | done |].
  by rewrite <- IH.
Qed.

Lemma filter_partition_perm {A : Type} (p : A → bool) (l : list A) :
  List.filter (fun x => negb (p x)) l ++ List.filter p l ≡ₚ l.
Proof.
  induction l as [|x l IH]; simpl; [done |].
  destruct (p x); simpl.
  - rewrite <- Permutation_middle. by rewrite IH.
  - by rewrite IH.
Qed.

(** X20: [build_solid_definitions_snapshot] partitions the definitions
    of a pipeline by kind: the atomic snapshots are the atomic
    definitions in their order, the composite snapshots the composite
    ones in theirs, every definition gives exactly one snapshot under
    its own name, and definitions of pairwise different names give
    snapshots of pairwise different names. *)
Theorem build_solid_definitions_snapshot_partition (pipeline_def : PipelineDefinition) :
  map sds_name (solid_def_snaps (build_solid_definitions_snapshot pipeline_def))
  = map isd_name
      (List.filter (fun d => negb (is_composite d)) (all_solid_defs pipeline_def))
  ∧ map csds_name
      (composite_solid_def_snaps (build_solid_definitions_snapshot pipeline_def))
    = map isd_name (List.filter is_composite (all_solid_defs pipeline_def))
  ∧ map sds_name (solid_def_snaps (build_solid_definitions_snapshot pipeline_def))
      ++ map csds_name
           (composite_solid_def_snaps (build_solid_definitions_snapshot pipeline_def))
    ≡ₚ map isd_name (all_solid_defs pipeline_def)
  ∧ (NoDup (map isd_name (all_solid_defs pipeline_def)) →
     NoDup (map sds_name
              (solid_def_snaps (build_solid_definitions_snapshot pipeline_def))
            ++ map csds_name
                 (composite_solid_def_snaps
                    (build_solid_definitions_snapshot pipeline_def)))).
Proof.
  unfold build_solid_definitions_snapshot. simpl.
  rewrite atomic_names, composite_names.
  assert (map isd_name
            (List.filter (fun d => negb (is_composite d)) (all_solid_defs pipeline_def))
          ++ map isd_name (List.filter is_composite (all_solid_defs pipeline_def))
          ≡ₚ map isd_name (all_solid_defs pipeline_def)) as Hperm.
  { rewrite <- map_app.
    change (map isd_name ?l) with (isd_name <$> l).
    by rewrite filter_partition_perm. }
  split; [done |]. split; [done |]. split; [exact Hperm |].
  intros Hnd. by rewrite Hperm.
Qed.

(** X21: [get_input_snap] returns the first input snapshot of the
    given name; what it returns is an input of the definition snapshot
    and has that name; and it fails with the [check.failed] error
    "Could not find input" exactly when no input has that name. *)
Theorem get_input_snap_first (self : SolidDefSnap) (n : string) :
  (∀ pre inp post,
     sds_input_def_snaps self = pre ++ inp :: post →
     ids_name inp = n →
     Forall (fun i => ids_name i ≠ n) pre →
     get_input_snap self n = Ok inp)
  ∧ (∀ inp, get_input_snap self n = Ok inp →
            inp ∈ sds_input_def_snaps self ∧ ids_name inp = n)
  ∧ (get_input_snap self n
     = Raise (mk_exn CheckError ("Could not find input " ++ n) None)
     ↔ ∀ inp, inp ∈ sds_input_def_snaps self → ids_name inp ≠ n).
Proof.
  unfold get_input_snap. split; [| split].
  - intros pre inp post -> Hn Hpre.
    rewrite (find_first _ pre post inp); [done | by apply bool_decide_eq_true_2 |].
    eapply Forall_impl; [exact Hpre |]. intros i Hi. by apply bool_decide_eq_false_2.
  - intros inp.
    destruct (List.find _ _) as [x|] eqn:Hf; [| done].
    intros [= <-]. apply find_some in Hf as [Hin Hx].
    apply bool_decide_eq_true in Hx. by rewrite list_elem_of_In.
  - destruct (List.find _ _) as [x|] eqn:Hf.
    + split; [done |]. intros Hall.
      apply find_some in Hf as [Hin Hx]. apply bool_decide_eq_true in Hx.
      apply list_elem_of_In in Hin. by destruct (Hall x Hin).
    + split; [| done]. intros _ inp Hin Hn.
      apply list_elem_of_In in Hin.
      pose proof (find_none _ _ Hf inp Hin) as Hx. simpl in Hx.
      by apply bool_decide_eq_false in Hx.
Qed.

(** X22: [get_output_snap] returns the first output snapshot of the
    given name; what it returns is an output of the definition snapshot
    and has that name; and it fails with the [check.failed] error
    "Could not find output" exactly when no output has that name. *)
Theorem get_output_snap_first (self : SolidDefSnap) (n : string) :
  (∀ pre out post,
     sds_output_def_snaps self = pre ++ out :: post →
     ods_name out = n →
     Forall (fun o => ods_name o ≠ n) pre →
     get_output_snap self n = Ok out)
  ∧ (∀ out, get_output_snap self n = Ok out →
            out ∈ sds_output_def_snaps self ∧ ods_name out = n)
  ∧ (get_output_snap self n
     = Raise (mk_exn CheckError ("Could not find output " ++ n) None)
     ↔ ∀ out, out ∈ sds_output_def_snaps self → ods_name out ≠ n).
Proof.
  unfold get_output_snap. split; [| split].
  - intros pre out post -> Hn Hpre.
    rewrite (find_first _ pre post out); [done | by apply bool_decide_eq_true_2 |].
    eapply Forall_impl; [exact Hpre |]. intros o Ho. by apply bool_decide_eq_false_2.
  - intros out.
    destruct (List.find _ _) as [x|] eqn:Hf; [| done].
    intros [= <-]. apply find_some in Hf as [Hin Hx].
    apply bool_decide_eq_true in Hx. by rewrite list_elem_of_In.
  - destruct (List.find _ _) as [x|] eqn:Hf.
    + split; [done |]. intros Hall.
      apply find_some in Hf as [Hin Hx]. apply bool_decide_eq_true in Hx.
      apply list_elem_of_In in Hin. by destruct (Hall x Hin).
    + split; [| done]. intros _ out Hin Hn.
      apply list_elem_of_In in Hin.
      pose proof (find_none _ _ Hf out Hin) as Hx. simpl in Hx.
      by apply bool_decide_eq_false in Hx.
Qed.

Lemma find_in_NoDup {A B : Type} (key : A → B) (l : list A) (x : A) :
  NoDup (map key l) → x ∈ l →
  ∃ pre post, l = pre ++ x :: post ∧ Forall (fun y => key y ≠ key x) pre.
Proof.
  intros Hnd Hin. apply list_elem_of_split in Hin as (pre & post & ->).
  exists pre, post. split; [done |].
  rewrite map_app in Hnd. apply NoDup_app in Hnd as (_ & Hdisj & _).
  apply Forall_forall. intros y Hy Heq.
  apply (Hdisj (key y)).
  - apply list_elem_of_In, in_map. by apply list_elem_of_In.
  - simpl. rewrite Heq. by left.
Qed.

(** X23: the snapshot of a solid definition whose inputs have pairwise
    different names answers [get_input_snap] for the name of each
    declared input with the snapshot of that input (its name, the key
    of its type, its description); and the same for outputs, with
    [get_output_snap]. *)
Theorem build_solid_def_snap_ports (solid_def : SolidDefinition) :
  (NoDup (map in_name (sd_input_defs solid_def)) →
   ∀ input_def, input_def ∈ sd_input_defs solid_def →
     get_input_snap (build_solid_def_snap solid_def) (in_name input_def)
     = Ok (mkInputDefSnap (in_name input_def) (in_dagster_type_key input_def)
             (in_description input_def)))
  ∧ (NoDup (map out_name (sd_output_defs solid_def)) →
     ∀ output_def, output_def ∈ sd_output_defs solid_def →
       get_output_snap (build_solid_def_snap solid_def) (out_name output_def)
       = Ok (mkOutputDefSnap (out_name output_def) (out_dagster_type_key output_def)
               (out_description output_def) (out_is_required output_def))).
Proof.
  split.
  - intros Hnd input_def Hin.
    destruct (find_in_NoDup in_name _ _ Hnd Hin) as (pre & post & Heq & Hpre).
    unfold get_input_snap, build_solid_def_snap. simpl.
    rewrite Heq, map_app. simpl.
    rewrite (find_first _ (map build_input_def_snap pre)
               (map build_input_def_snap post) (build_input_def_snap input_def)).
    + done.
    + by apply bool_decide_eq_true_2.
    + apply Forall_forall. intros i Hi.
      apply list_elem_of_In, in_map_iff in Hi as (y & <- & Hy).
      apply bool_decide_eq_false_2. simpl.
      rewrite Forall_forall in Hpre. apply Hpre. by apply list_elem_of_In.
  - intros Hnd output_def Hin.
    destruct (find_in_NoDup out_name _ _ Hnd Hin) as (pre & post & Heq & Hpre).
    unfold get_output_snap, build_solid_def_snap. simpl.
    rewrite Heq, map_app. simpl.
    rewrite (find_first _ (map build_output_def_snap pre)
               (map build_output_def_snap post) (build_output_def_snap output_def)).
    + done.
    + by apply bool_decide_eq_true_2.
    + apply Forall_forall. intros o Ho.
      apply list_elem_of_In, in_map_iff in Ho as (y & <- & Hy).
      apply bool_decide_eq_false_2. simpl.
      rewrite Forall_forall in Hpre. apply Hpre. by apply list_elem_of_In.
Qed.

(** X24: in the snapshot of a pipeline, every invocation of the
    top-level dependency structure names a definition the snapshot
    holds: if [all_solid_defs] has a definition of the name of each
    solid's definition, then for every invocation there is an atomic or
    a composite definition snapshot named as its [solid_def_name]. *)
Theorem from_pipeline_def_resolves_definitions (pipeline_def : PipelineDefinition) :
  (∀ solid, solid ∈ Snap.solids (pd_contained pipeline_def) →
            ∃ d, d ∈ all_solid_defs pipeline_def
                 ∧ isd_name d = Snap.def_name (Snap.definition solid)) →
  ∀ inv,
    inv ∈ Snap.solid_invocation_snaps
            (dep_structure_snapshot (from_pipeline_def pipeline_def)) →
    (∃ s, s ∈ solid_def_snaps
                (solid_definitions_snapshot (from_pipeline_def pipeline_def))
          ∧ sds_name s = Snap.solid_def_name inv)
    ∨ (∃ c, c ∈ composite_solid_def_snaps
                  (solid_definitions_snapshot (from_pipeline_def pipeline_def))
            ∧ csds_name c = Snap.solid_def_name inv).
Proof.
  intros Hdefs inv Hinv. simpl in Hinv.
  apply list_elem_of_In, in_map_iff in Hinv as (solid & <- & Hsolid).
  apply list_elem_of_In in Hsolid.
  destruct (Hdefs solid Hsolid) as ([sd | csd] & Hd & Hname); simpl in *.
  - left. exists (build_solid_def_snap sd). split; [| done].
    apply list_elem_of_omap. by exists (Atomic sd).
  - right. exists (build_composite_solid_def_snap csd). split; [| done].
    apply list_elem_of_omap. by exists (Composite csd).
Qed.

End WithConfigTypes.

(** *** The theorems on sample data *)

Section OnSamples.

Import Samples MoreSamples.

#[local] Existing Instance toy_config_types.
#[local] Existing Instance toy_schema_builders.

Example sample_pipeline_partition :
  map sds_name (solid_def_snaps (build_solid_definitions_snapshot sample_pipeline))
  = ["emit"; "join"]
  ∧ map csds_name
      (composite_solid_def_snaps (build_solid_definitions_snapshot sample_pipeline))
    = ["wrap"].
Proof. split; reflexivity. Qed.

Example join_snap_input_y :
  get_input_snap (build_solid_def_snap join_def) "y"
  = Ok (mkInputDefSnap "y" "Int" (Some "fan-in")).
Proof. reflexivity. Qed.

Example join_snap_no_input_z :
  get_input_snap (build_solid_def_snap join_def) "z"
  = Raise (mk_exn CheckError "Could not find input z" None).
Proof. reflexivity. Qed.

Example join_snap_no_output :
  get_output_snap (build_solid_def_snap join_def) "other"
  = Raise (mk_exn CheckError "Could not find output other" None).
Proof. reflexivity. Qed.

Example join_snap_config :
  sds_config_field_snap (build_solid_def_snap join_def) = Some ("config", "limit")
  ∧ sds_config_field_snap (build_solid_def_snap emit_def) = None
  ∧ sds_required_resource_keys (build_solid_def_snap join_def) = ["db"].
Proof. vm_compute. repeat split. Qed.

Lemma sample_pipeline_defs_cover :
  ∀ solid, solid ∈ Snap.solids (pd_contained sample_pipeline) →
           ∃ d, d ∈ all_solid_defs sample_pipeline
                ∧ isd_name d = Snap.def_name (Snap.definition solid).
Proof.
  intros solid Hs. simpl in Hs.
  rewrite !elem_of_cons, elem_of_nil in Hs.
  destruct Hs as [-> | [-> | [-> | []]]].
  - exists (Atomic emit_def). split; [by left | reflexivity].
  - exists (Atomic join_def). split; [right; right; by left | reflexivity].
  - exists (Atomic emit_def). split; [by left | reflexivity].
Defined.

Lemma from_pipeline_def_resolves_definitions_witness :
  (∀ solid, solid ∈ Snap.solids (pd_contained sample_pipeline) →
            ∃ d, d ∈ all_solid_defs sample_pipeline
                 ∧ isd_name d = Snap.def_name (Snap.definition solid))
  ∧ ∀ inv,
      inv ∈ Snap.solid_invocation_snaps
              (dep_structure_snapshot (from_pipeline_def sample_pipeline)) →
      (∃ s, s ∈ solid_def_snaps
                  (solid_definitions_snapshot (from_pipeline_def sample_pipeline))
            ∧ sds_name s = Snap.solid_def_name inv)
      ∨ (∃ c, c ∈ composite_solid_def_snaps
                    (solid_definitions_snapshot (from_pipeline_def sample_pipeline))
              ∧ csds_name c = Snap.solid_def_name inv).
Proof.
  split; [exact sample_pipeline_defs_cover |].
  exact (from_pipeline_def_resolves_definitions sample_pipeline
           sample_pipeline_defs_cover).
Defined.

End OnSamples.

End SolidFacts.
